(** * Semgrep scanner microservice: scan orchestration and result normalisation

    A shallow embedding of [semgrep-service/main.py] and the properties of
    its request-scoped scan pipeline: staging files into a scratch
    directory, running the engine, classifying its exit code, parsing and
    normalising its output, and releasing the scratch directory.

    - Strings are lists of code points; engine output is a [json] value.
    - Exceptions are explicit: a computation gives [Ok] or [Raise], and the
      handler threads a world (the file system and a trace of what was
      done to the scratch directory and the engine) through its steps.
    - What the service calls and does not define is a parameter:
      [PyRuntime] for the library functions, [Env] for the surroundings of
      one request (temporary names, the engine process, the clock). *)

From Stdlib Require Import ZArith NArith String Ascii.
From Stdlib Require Floats.SpecFloat.
From stdpp Require Import base option list gmap.

Local Set Warnings "-register-all".
Local Open Scope Z_scope.

(** ** Python strings

    A Python [str] is a sequence of Unicode code points. *)

Definition char := N.
Definition str := list char.

(** The [str] written by an ASCII literal of the source. *)
Definition py (s : string) : str :=
  List.map N_of_ascii (list_ascii_of_string s).
Arguments py : simpl never.

(** [s.startswith(p)] *)
Fixpoint startswith (s p : str) : bool :=
  match p, s with
  | [], _ => true
  | _ :: _, [] => false
  | a :: p', b :: s' => N.eqb a b && startswith s' p'
  end.

(** [s.lstrip(chars)]: drop the leading characters that occur in [chars]. *)
Fixpoint lstrip (chars s : str) : str :=
  match s with
  | [] => []
  | c :: s' => if existsb (N.eqb c) chars then lstrip chars s' else s
  end.

(** [sub in s] for strings. *)
Fixpoint str_in (sub s : str) : bool :=
  startswith s sub ||
  match s with
  | [] => false
  | _ :: s' => str_in sub s'
  end.

(** [s.rsplit(sep, 1)] for a one-character separator: the text before and
    after the last occurrence of [sep], or [s] alone when there is none. *)
Fixpoint rsplit1 (sep : char) (s : str) : list str :=
  match s with
  | [] => [[]]
  | c :: s' =>
      match rsplit1 sep s' with
      | [tl] => if N.eqb c sep then [[]; tl] else [c :: tl]
      | hd :: rest => (c :: hd) :: rest
      | [] => []
      end
  end.

(** [s.split(sep)] for a one-character separator. *)
Fixpoint split_on (sep : char) (s : str) : list str :=
  match s with
  | [] => [[]]
  | c :: s' =>
      if N.eqb c sep then [] :: split_on sep s'
      else match split_on sep s' with
           | hd :: tl => (c :: hd) :: tl
           | [] => [[c]]
           end
  end.

(** [l[-1]] on a list of strings. *)
Definition last_item (l : list str) : str := List.last l [].

Definition dot : char := 46%N.
Definition slash : char := 47%N.
Definition backslash : char := 92%N.

(** ** Exceptions *)

Inductive oserror :=
| FileNotFoundError | FileExistsError | NotADirectoryError | IsADirectoryError.

(** The exception classes (all subclasses of [Exception]) that can be
    raised inside the request handler, [HTTPException] apart. *)
Inductive pyerr :=
| TimeoutExpired
| JSONDecodeError
| OSError (kind : oserror) (filename : str)
| ValueError
| UnicodeEncodeError
| UnicodeDecodeError
| AttributeError
| TypeError
| ValidationError
| RecursionError.

(** The [detail] of an [HTTPException]: a text built by the handler, or
    [str(e)] of the exception it wraps. *)
Inductive detail :=
| Text (s : str)
| StrOf (e : pyerr).

Inductive exc :=
| HTTPException (status_code : Z) (d : detail)
| Py (e : pyerr).

Inductive res (A : Type) :=
| Ok (a : A)
| Raise (e : exc).
Arguments Ok {A} a.
Arguments Raise {A} e.

#[global] Instance res_ret : MRet res := λ A a, Ok a.
#[global] Instance res_bind : MBind res := λ A B k m,
  match m with
  | Ok a => k a
  | Raise e => Raise e
  end.

(** ** JSON values, as [json.loads] builds them *)

Inductive json :=
| JNull
| JBool (b : bool)
| JInt (z : Z)
| JFloat (f : SpecFloat.spec_float)
| JStr (s : str)
| JList (l : list json)
| JDict (d : gmap str json).

(** The parts of the Python runtime and of its libraries that the service
    calls and that are not in this repository. *)
Class PyRuntime := {
  (** [str.upper()] on one code point outside ASCII (Unicode case tables). *)
  upper_nonascii : char → str;
  (** [json.loads]: the value, or the exception it raises. *)
  json_loads : str → pyerr + json;
  (** Validation by [BaseModel] of a field declared [str], of one declared
      [int]: the value of the field, or none when it is refused. *)
  validate_str : json → option str;
  validate_int : json → option Z;
  json_loads_not_timeout : ∀ s, json_loads s ≠ inl TimeoutExpired;
  validate_str_JStr : ∀ s, validate_str (JStr s) = Some s;
  validate_int_JInt : ∀ z, validate_int (JInt z) = Some z;
}.

(** ** Data model *)

Record FileInput := { fi_path : str; fi_content : str }.

Record ScanRequest := { files : list FileInput; rules_config : str }.

Record Finding := {
  rule_id : str;
  path : str;
  line : Z;
  message : str;
  severity : str;
  category : str;
}.

Record ScanResponse := {
  findings : list Finding;
  duration_ms : Z;
  files_scanned : Z;
}.

Section Normalizer.
Context `{RT : PyRuntime}.

(** [s.upper()], code point by code point. *)
Definition upper_char (c : char) : str :=
  if (97 <=? c)%N && (c <=? 122)%N then [(c - 32)%N]
  else if (c <? 128)%N then [c]
  else upper_nonascii c.

Definition upper (s : str) : str := flat_map upper_char s.

Definition severity_mapping : gmap str str :=
  list_to_map [ (py "ERROR", py "error");
                (py "WARNING", py "warning");
                (py "INFO", py "info") ].

Definition map_severity (semgrep_severity : str) : str :=
  default (py "info") (severity_mapping !! upper semgrep_severity).

Definition security_rules : gset str :=
  list_to_set (List.map py
    [ "hardcoded-secret-generic"; "sql-string-concat"; "weak-crypto-md5";
      "weak-crypto-sha1"; "js-eval-usage"; "js-innerhtml"; "python-exec";
      "python-subprocess-shell"; "go-sql-format"; "rust-unsafe-block";
      "path-traversal-python"; "path-traversal-go"; "path-traversal-node";
      "command-injection-go"; "command-injection-node";
      "ssrf-python"; "ssrf-node";
      "insecure-deserialize-python"; "insecure-deserialize-java";
      "java-unsafe-reflection"; "log-injection" ]%string).

Definition map_category (rule_id : str) : str :=
  if bool_decide (rule_id ∈ security_rules) then py "security"
  else if bool_decide (rule_id = py "test-todo-skip") then py "quality"
  else py "security".

Arguments severity_mapping : simpl never.
Arguments security_rules : simpl never.
Arguments map_severity : simpl never.
Arguments map_category : simpl never.

(** *** Dynamic operations on parsed JSON *)

(** [o.get(key, dflt)]: only a [dict] has the method. *)
Definition py_get (o : json) (key : str) (dflt : json) : res json :=
  match o with
  | JDict d => Ok (default dflt (d !! key))
  | _ => Raise (Py AttributeError)
  end.

(** The items a [for] loop over [o] visits. *)
Definition py_iter (o : json) : res (list json) :=
  match o with
  | JList l => Ok l
  | JStr s => Ok (List.map (λ c, JStr [c]) s)
  | JDict d => Ok (List.map (λ kv, JStr kv.1) (map_to_list d))
  | _ => Raise (Py TypeError)
  end.

Definition is_dot (v : json) : bool :=
  match v with
  | JStr s => bool_decide (s = py ".")
  | _ => false
  end.

(** ["." in o] *)
Definition py_dot_in (o : json) : res bool :=
  match o with
  | JStr s => Ok (str_in (py ".") s)
  | JList l => Ok (existsb is_dot l)
  | JDict d => Ok (bool_decide (is_Some (d !! py ".")))
  | _ => Raise (Py TypeError)
  end.

(** [o.rsplit(".", 1)[-1]] *)
Definition py_rsplit_last (o : json) : res json :=
  match o with
  | JStr s => Ok (JStr (last_item (rsplit1 dot s)))
  | _ => Raise (Py AttributeError)
  end.

(** [map_severity(o)]: [o.upper()] exists on a [str] only. *)
Definition py_map_severity (o : json) : res str :=
  match o with
  | JStr s => Ok (map_severity s)
  | _ => Raise (Py AttributeError)
  end.

(** [map_category(o)]: membership in a set hashes [o]. *)
Definition py_map_category (o : json) : res str :=
  match o with
  | JStr s => Ok (map_category s)
  | JList _ | JDict _ => Raise (Py TypeError)
  | _ => Ok (py "security")
  end.

(** Construction of a [Finding]: every field is validated against its
    declared type. *)
Definition make_Finding (rule_id path line message : json)
    (severity category : str) : res Finding :=
  match validate_str rule_id, validate_str path,
        validate_int line, validate_str message with
  | Some r, Some p, Some l, Some m =>
      Ok {| rule_id := r; path := p; line := l; message := m;
            severity := severity; category := category |}
  | _, _, _, _ => Raise (Py ValidationError)
  end.

(** The body of the loop of [parse_semgrep_output] for one result. *)
Definition parse_result (result : json) : res Finding :=
  (check_id ← py_get result (py "check_id") (JStr (py "unknown"));
   has_dot ← py_dot_in check_id;
   check_id ← (if has_dot : bool then py_rsplit_last check_id else Ok check_id);
   path ← py_get result (py "path") (JStr (py ""));
   start ← py_get result (py "start") (JDict ∅);
   line ← py_get start (py "line") (JInt 0);
   extra ← py_get result (py "extra") (JDict ∅);
   message ← py_get extra (py "message") (JStr (py ""));
   extra' ← py_get result (py "extra") (JDict ∅);
   sev ← py_get extra' (py "severity") (JStr (py "INFO"));
   severity ← py_map_severity sev;
   category ← py_map_category check_id;
   make_Finding check_id path line message severity category).

Fixpoint parse_results (results : list json) : res (list Finding) :=
  match results with
  | [] => Ok []
  | result :: rest =>
      (f ← parse_result result;
       fs ← parse_results rest;
       Ok (f :: fs))
  end.

Definition parse_semgrep_output (output : json) : res (list Finding) :=
  (results ← py_get output (py "results") (JList []);
   items ← py_iter results;
   parse_results items).

End Normalizer.

(** ** Paths ([pathlib] on POSIX) *)

(** ["/".join(l)] *)
Fixpoint join_slash (l : list str) : str :=
  match l with
  | [] => []
  | [x] => x
  | x :: rest => x ++ slash :: join_slash rest
  end.

(** [posixpath.splitroot]: the root (none, one slash, or exactly two) and
    the rest. *)
Definition splitroot (p : str) : str * str :=
  if negb (startswith p [slash]) then ([], p)
  else if negb (startswith (drop 1 p) [slash]) || startswith (drop 2 p) [slash]
       then ([slash], drop 1 p)
  else (take 2 p, drop 2 p).

(** A parsed path: its root and its components; empty components and [.]
    are dropped, [..] is kept. *)
Record Path := { root : str; parts : list str }.

Definition is_part (x : str) : bool :=
  negb (bool_decide (x = [])) && negb (bool_decide (x = py ".")).

Definition parse_path (p : str) : Path :=
  let '(r, rel) := splitroot p in
  {| root := r; parts := List.filter is_part (split_on slash rel) |}.

(** [str(p)] *)
Definition Path_str (p : Path) : str :=
  match root p, parts p with
  | [], [] => py "."
  | r, l => r ++ join_slash l
  end.

(** [posixpath.join(a, b)] *)
Definition posix_join (a b : str) : str :=
  if startswith b [slash] then b
  else if bool_decide (a = []) || bool_decide (List.last a 0%N = slash) then a ++ b
  else a ++ slash :: b.

(** [p / key] *)
Definition joinpath (p : Path) (key : str) : Path :=
  parse_path (posix_join (Path_str p) key).

(** [p.parent] *)
Definition parent (p : Path) : Path :=
  {| root := root p; parts := removelast (parts p) |}.

(** ** The file system

    A tree of directories and regular files, addressed by the list of
    names from the root directory. There are no symbolic links,
    permissions or limits on names. *)

Inductive node :=
| Dir
| File (content : str).

Abbreviation fsmap := (gmap (list str) node).

Definition node_at (fs : fsmap) (loc : list str) : option node :=
  match loc with
  | [] => Some Dir
  | _ => fs !! loc
  end.

(** Path resolution by the kernel: every component is looked up in a
    directory; [..] moves to the parent directory. *)
Fixpoint walk (fs : fsmap) (cur : list str) (comps : list str)
  : oserror + list str :=
  match comps with
  | [] => inr cur
  | c :: rest =>
      match node_at fs cur with
      | None => inl FileNotFoundError
      | Some (File _) => inl NotADirectoryError
      | Some Dir =>
          if bool_decide (c = py "..") then walk fs (removelast cur) rest
          else walk fs (cur ++ [c]) rest
      end
  end.

Section FileSystem.
(** The working directory of the service process. *)
Variable cwd : list str.

Definition start_of (p : Path) : list str :=
  match root p with
  | [] => cwd
  | _ => []
  end.

(** The directory holding the last component of [p], and that component. *)
Definition lookup_parent (fs : fsmap) (p : Path)
  : oserror + (list str * option str) :=
  match walk fs (start_of p) (removelast (parts p)) with
  | inl e => inl e
  | inr dir =>
      match node_at fs dir with
      | None => inl FileNotFoundError
      | Some (File _) => inl NotADirectoryError
      | Some Dir => inr (dir, last (parts p))
      end
  end.

Definition has_nul (p : Path) : bool := existsb (N.eqb 0%N) (Path_str p).

(** [os.stat(p)] *)
Definition os_stat (fs : fsmap) (p : Path) : option node :=
  if has_nul p then None
  else match walk fs (start_of p) (parts p) with
       | inl _ => None
       | inr loc => node_at fs loc
       end.

(** [p.exists()] and [p.is_dir()] *)
Definition exists_ (fs : fsmap) (p : Path) : bool :=
  match os_stat fs p with
  | Some _ => true
  | None => false
  end.

Definition is_dir (fs : fsmap) (p : Path) : bool :=
  match os_stat fs p with
  | Some Dir => true
  | _ => false
  end.

(** [os.mkdir(p)] *)
Definition os_mkdir (fs : fsmap) (p : Path) : pyerr + fsmap :=
  if has_nul p then inl ValueError
  else match lookup_parent fs p with
       | inl e => inl (OSError e (Path_str p))
       | inr (dir, None) => inl (OSError FileExistsError (Path_str p))
       | inr (dir, Some name) =>
           if bool_decide (name = py "..")
           then inl (OSError FileExistsError (Path_str p))
           else match fs !! (dir ++ [name]) with
                | Some _ => inl (OSError FileExistsError (Path_str p))
                | None => inr (<[dir ++ [name] := Dir]> fs)
                end
       end.

Definition is_ENOENT (e : pyerr) : bool :=
  match e with
  | OSError FileNotFoundError _ => true
  | _ => false
  end.

Definition is_OSError (e : pyerr) : bool :=
  match e with
  | OSError _ _ => true
  | _ => false
  end.

(** [p.mkdir(parents=False, exist_ok=True)] *)
Definition mkdir_exist_ok (fs : fsmap) (p : Path) : pyerr + fsmap :=
  match os_mkdir fs p with
  | inr fs' => inr fs'
  | inl e =>
      if is_ENOENT e then inl e
      else if is_OSError e && is_dir fs p then inr fs
      else inl e
  end.

(** [p.mkdir(parents=True, exist_ok=True)], where [p] has the root [r] and
    the components [rev rparts]: a missing parent is created first, then
    the directory itself. *)
Fixpoint mkdir_parents (fs : fsmap) (r : str) (rparts : list str)
  : pyerr + fsmap :=
  let p := {| root := r; parts := rev rparts |} in
  match os_mkdir fs p with
  | inr fs' => inr fs'
  | inl e =>
      if is_ENOENT e then
        match rparts with
        | [] => inl e
        | _ :: rparent =>
            match mkdir_parents fs r rparent with
            | inl e' => inl e'
            | inr fs' => mkdir_exist_ok fs' p
            end
        end
      else if is_OSError e && is_dir fs p then inr fs
      else inl e
  end.

Definition is_surrogate (c : char) : bool :=
  (55296 <=? c)%N && (c <=? 57343)%N.

(** [p.write_text(content, encoding="utf-8")]: the file is opened for
    writing (created or truncated), then the encoded text is written. *)
Definition write_text (fs : fsmap) (p : Path) (content : str)
  : fsmap * option pyerr :=
  if has_nul p then (fs, Some ValueError)
  else match lookup_parent fs p with
       | inl e => (fs, Some (OSError e (Path_str p)))
       | inr (dir, None) => (fs, Some (OSError IsADirectoryError (Path_str p)))
       | inr (dir, Some name) =>
           if bool_decide (name = py "..")
           then (fs, Some (OSError IsADirectoryError (Path_str p)))
           else match fs !! (dir ++ [name]) with
                | Some Dir => (fs, Some (OSError IsADirectoryError (Path_str p)))
                | _ =>
                    if existsb is_surrogate content
                    then (<[dir ++ [name] := File []]> fs, Some UnicodeEncodeError)
                    else (<[dir ++ [name] := File content]> fs, None)
                end
       end.

(** The location a path names, when its directories exist. *)
Definition locate (fs : fsmap) (p : Path) : option (list str) :=
  match walk fs (start_of p) (parts p) with
  | inl _ => None
  | inr loc => Some loc
  end.

(** Removal of the directory at [loc] with everything below it. *)
Definition remove_tree (fs : fsmap) (loc : list str) : fsmap :=
  filter (λ kv, ¬ loc `prefix_of` kv.1) fs.

End FileSystem.

(** ** The request handler *)

(** What [subprocess.run] gives back: a completed process, or the
    exception it raises ([TimeoutExpired] when the time limit passes). *)
Inductive proc_result :=
| Completed (returncode : Z) (stdout stderr : str)
| RunRaises (e : pyerr).

(** The surroundings of one request. *)
Record Env := {
  (** working directory of the service *)
  cwd : list str;
  (** [__file__] of the module *)
  module_file : str;
  (** [tempfile.gettempdir()] *)
  tempdir : str;
  (** the random names [tempfile.mkdtemp] tries, in order *)
  tmp_names : list str;
  (** the engine: what the process started with a command line gives on
      the files it finds *)
  engine : list str → fsmap → proc_result;
  (** [int((time.time() - start_time) * 1000)] at the end of the scan *)
  elapsed_ms : Z;
  (** whether the removal of the scratch directory fails *)
  rmtree_fails : bool;
}.

Inductive event :=
| EvMkdtemp (d : str)
| EvRun (cmd : list str)
| EvRmtree (d : str).

Record world := { fs : fsmap; trace : list event }.

Definition M (A : Type) : Type := world → res A * world.

#[global] Instance M_ret : MRet M := λ A a w, (Ok a, w).
#[global] Instance M_bind : MBind M := λ A B k m w,
  match m w with
  | (Ok a, w') => k a w'
  | (Raise e, w') => (Raise e, w')
  end.

Definition raise {A} (e : exc) : M A := λ w, (Raise e, w).
Definition lift {A} (r : res A) : M A := λ w, (r, w).

Section Service.
Context `{RT : PyRuntime}.
Variable env : Env.

(** [RULES_PATH = Path(__file__).parent / "rules.yml"] *)
Definition RULES_PATH : Path :=
  joinpath (parent (parse_path (module_file env))) (py "rules.yml").

(** [tempfile.mkdtemp(prefix=prefix)]: the first candidate name that can be
    created; a name already taken is skipped. *)
Fixpoint mkdtemp_from (names : list str) (prefix : str) : M str :=
  match names with
  | [] => raise (Py (OSError FileExistsError []))
  | name :: rest =>
      let file := posix_join (tempdir env) (prefix ++ name) in
      λ w, match os_mkdir (cwd env) (fs w) (parse_path file) with
           | inr fs' =>
               (Ok file, {| fs := fs'; trace := trace w ++ [EvMkdtemp file] |})
           | inl (OSError FileExistsError _) => mkdtemp_from rest prefix w
           | inl e => (Raise (Py e), w)
           end
  end.

Definition mkdtemp (prefix : str) : M str := mkdtemp_from (tmp_names env) prefix.

Definition Path_mkdir_parents (p : Path) : M unit :=
  λ w, match mkdir_parents (cwd env) (fs w) (root p) (rev (parts p)) with
       | inr fs' => (Ok (), {| fs := fs'; trace := trace w |})
       | inl e => (Raise (Py e), w)
       end.

Definition Path_write_text (p : Path) (content : str) : M unit :=
  λ w, match write_text (cwd env) (fs w) p content with
       | (fs', None) => (Ok (), {| fs := fs'; trace := trace w |})
       | (fs', Some e) => (Raise (Py e), {| fs := fs'; trace := trace w |})
       end.

Definition Path_exists (p : Path) : M bool :=
  λ w, (Ok (exists_ (cwd env) (fs w) p), w).

(** [subprocess.run(cmd, capture_output=True, text=True, timeout=60)]. The
    process is taken to read the files and to leave them as they are. *)
Definition subprocess_run (cmd : list str) : M (Z * str * str) :=
  λ w, let w' := {| fs := fs w; trace := trace w ++ [EvRun cmd] |} in
       match engine env cmd (fs w) with
       | Completed rc out err => (Ok (rc, out, err), w')
       | RunRaises e => (Raise (Py e), w')
       end.

(** [shutil.rmtree(tmpdir, ignore_errors=True)]: a failure is dropped; a
    removal that fails is taken to leave the tree as it was. *)
Definition rmtree_ignore_errors (tmpdir : str) (w : world) : world :=
  let fs' :=
    if rmtree_fails env then fs w
    else match locate (cwd env) (fs w) (parse_path tmpdir) with
         | Some loc =>
             match node_at (fs w) loc with
             | Some Dir => remove_tree (fs w) loc
             | _ => fs w
             end
         | None => fs w
         end in
  {| fs := fs'; trace := trace w ++ [EvRmtree tmpdir] |}.

(** The loop that writes the request's files below [tmpdir]. *)
Fixpoint write_files (tmpdir : str) (l : list FileInput) : M unit :=
  match l with
  | [] => mret ()
  | file_input :: rest =>
      let file_path := joinpath (parse_path tmpdir) (fi_path file_input) in
      _ ← Path_mkdir_parents (parent file_path);
      _ ← Path_write_text file_path (fi_content file_input);
      write_files tmpdir rest
  end.

(** The loop that rewrites the paths of the findings. *)
Definition normalize_path (tmpdir : str) (finding : Finding) : Finding :=
  if startswith (path finding) tmpdir then
    {| rule_id := rule_id finding;
       path := lstrip [backslash] (lstrip [slash] (drop (length tmpdir) (path finding)));
       line := line finding;
       message := message finding;
       severity := severity finding;
       category := category finding |}
  else finding.

(** The rules the engine is given: the registry, or the bundled file. *)
Definition resolve_config (request : ScanRequest) : M str :=
  if bool_decide (rules_config request = py "auto") then mret (py "auto")
  else
    ex ← Path_exists RULES_PATH;
    if ex : bool then mret (Path_str RULES_PATH)
    else raise (HTTPException 500 (Text (py "rules.yml not found"))).

Definition semgrep_cmd (config_arg tmpdir : str) : list str :=
  [ py "semgrep"; py "--config"; config_arg; py "--json";
    py "--no-git-ignore"; py "--quiet"; tmpdir ].

(** What [scan] does with a completed engine process: the exit code is
    classified, the output parsed and the paths rewritten. *)
Definition interpret_result (request : ScanRequest) (tmpdir : str)
    (result : Z * str * str) : res ScanResponse :=
  let '(returncode, stdout, stderr) := result in
  if negb (bool_decide (returncode ∈ [0; 1])) then
    Raise (HTTPException 500 (Text (py "Semgrep error: " ++ take 500 stderr)))
  else
    output ←
      (match json_loads stdout with
       | inr output => Ok output
       | inl JSONDecodeError =>
           Raise (HTTPException 500
                    (Text (py "Failed to parse Semgrep output: " ++ take 200 stdout)))
       | inl e => Raise (Py e)
       end);
    findings ← parse_semgrep_output output;
    let findings := List.map (normalize_path tmpdir) findings in
    Ok {| findings := findings;
          duration_ms := elapsed_ms env;
          files_scanned := Z.of_nat (length (files request)) |}.

(** The [try] block of [scan]. *)
Definition scan_body (request : ScanRequest) (tmpdir : str) : M ScanResponse :=
  _ ← write_files tmpdir (files request);
  config_arg ← resolve_config request;
  result ← subprocess_run (semgrep_cmd config_arg tmpdir);
  lift (interpret_result request tmpdir result).

(** The [except] clauses of [scan]. *)
Definition handler (e : exc) : exc :=
  match e with
  | HTTPException s d => HTTPException s d
  | Py TimeoutExpired => HTTPException 504 (Text (py "Semgrep scan timed out"))
  | Py e => HTTPException 500 (StrOf e)
  end.

(** [try: body] with the [except] clauses of [scan] and [finally: final] *)
Definition try_finally {A} (body : M A) (final : world → world) : M A :=
  λ w, match body w with
       | (Ok a, w') => (Ok a, final w')
       | (Raise e, w') => (Raise (handler e), final w')
       end.

Definition scan (request : ScanRequest) : M ScanResponse :=
  match files request with
  | [] => mret {| findings := []; duration_ms := 0; files_scanned := 0 |}
  | _ =>
      tmpdir ← mkdtemp (py "semgrep-scan-");
      try_finally (scan_body request tmpdir) (rmtree_ignore_errors tmpdir)
  end.

End Service.

Arguments interpret_result : simpl never.
Arguments rmtree_ignore_errors : simpl never.

(** * Vocabulary of the properties *)

Definition lower_ascii_char (c : char) : char :=
  if (65 <=? c)%N && (c <=? 90)%N then (c + 32)%N else c.

(** The text with its ASCII capitals turned to small letters. *)
Definition lower_ascii (s : str) : str := List.map lower_ascii_char s.

Definition severities : list str := [py "error"; py "warning"; py "info"].

(** In the words of the specification: the final segment of a dotted
    identifier. *)
Definition final_segment (id : str) : str := last_item (split_on dot id).

(** The severity token and the rule identifier of a raw result, when it
    has one. *)
Definition severity_token (result : json) : option json :=
  match result with
  | JDict d =>
      match d !! py "extra" with
      | Some (JDict ex) => ex !! py "severity"
      | _ => None
      end
  | _ => None
  end.

Definition raw_check_id (result : json) : option json :=
  match result with
  | JDict d => d !! py "check_id"
  | _ => None
  end.

Definition str_or_missing (o : option json) : Prop :=
  match o with
  | None | Some (JStr _) => True
  | _ => False
  end.

Definition int_or_missing (o : option json) : Prop :=
  match o with
  | None | Some (JInt _) => True
  | _ => False
  end.

(** A raw result with the fields of the engine's format, each of them
    optional. *)
Definition well_typed_result (d : gmap str json) : Prop :=
  str_or_missing (d !! py "check_id") ∧
  str_or_missing (d !! py "path") ∧
  match d !! py "start" with
  | None => True
  | Some (JDict st) => int_or_missing (st !! py "line")
  | _ => False
  end ∧
  match d !! py "extra" with
  | None => True
  | Some (JDict ex) =>
      str_or_missing (ex !! py "message") ∧ str_or_missing (ex !! py "severity")
  | _ => False
  end.

(** Directories of [fs] are directories of [fs']. *)
Definition dirs_kept (fs fs' : fsmap) : Prop :=
  ∀ loc, fs !! loc = Some Dir → fs' !! loc = Some Dir.

(** Every exception of the computation [m] satisfies [P]. *)
Definition raises {A} (P : exc → Prop) (m : res A) : Prop :=
  ∀ e, m = Raise e → P e.

(** The exceptions of the parsing of the engine output. *)
Definition parse_error (e : exc) : Prop :=
  match e with
  | Py AttributeError | Py TypeError | Py ValidationError => True
  | _ => False
  end.

(** The exceptions of the file operations. *)
Definition fs_error (e : pyerr) : Prop :=
  match e with
  | OSError _ _ | ValueError | UnicodeEncodeError => True
  | _ => False
  end.

Definition scratch_prefix : str := py "semgrep-scan-".

Definition ran (w : world) (cmd : list str) : world :=
  {| fs := fs w; trace := trace w ++ [EvRun cmd] |}.


(** The scan of [request] started in [w] gets as far as the engine: the
    scratch directory [tmpdir] is made, the files are written, leaving the
    world [w2], and the rules [cfg] are chosen. *)
Definition reaches_engine `{PyRuntime} (env : Env) (request : ScanRequest)
    (w : world) (tmpdir : str) (w2 : world) (cfg : str) : Prop :=
  files request ≠ [] ∧
  ∃ w1, mkdtemp env scratch_prefix w = (Ok tmpdir, w1) ∧
        write_files env tmpdir (files request) w1 = (Ok (), w2) ∧
        resolve_config env request w2 = (Ok cfg, w2).

(** The world once the files of [request] are written below [tmpdir]. *)
Definition staged `{PyRuntime} (env : Env) (request : ScanRequest) (w : world)
    (tmpdir : str) : world :=
  (write_files env tmpdir (files request) (mkdtemp env scratch_prefix w).2).2.

(** The components a path comes to once every [..] has taken back the
    component before it. *)
Fixpoint normalized (stack comps : list str) : list str :=
  match comps with
  | [] => rev stack
  | c :: rest =>
      if bool_decide (c = py "..") then normalized (tail stack) rest
      else normalized (c :: stack) rest
  end.

(** In the words of the specification: [key], resolved against the
    workspace root [tmpdir] and normalised, stays inside the workspace. *)
Definition spec_inside_workspace (tmpdir key : str) : bool :=
  bool_decide (normalized [] (parts (parse_path tmpdir)) `prefix_of`
               normalized [] (parts (joinpath (parse_path tmpdir) key))).


(** ** A runtime and an environment to run the model on

    [json.loads] is given by the documents the examples use; every other
    text does not decode. Code points outside ASCII have no upper case. *)

Definition quoted (s : str) : str := 34%N :: s ++ [34%N].

(** The engine output for one result at [p] (backslashes of [p] escaped as
    [pe]), reported by the rule [rules.js-eval-usage]. *)
Definition report_text (pe : str) : str :=
  py "{" ++ quoted (py "results") ++ py ": [{" ++
  quoted (py "check_id") ++ py ": " ++ quoted (py "rules.js-eval-usage") ++ py ", " ++
  quoted (py "path") ++ py ": " ++ quoted pe ++ py "}]}".

Definition report_value (p : str) : json :=
  JDict {[ py "results" :=
    JList [ JDict (<[ py "check_id" := JStr (py "rules.js-eval-usage") ]>
                   {[ py "path" := JStr p ]}) ] ]}.

Definition sample_documents : list (str * json) :=
  [ (py "{}", JDict ∅);
    (report_text (py "/tmp/semgrep-scan-k3x9_q2a/src/app.js"),
     report_value (py "/tmp/semgrep-scan-k3x9_q2a/src/app.js"));
    (report_text (py "/tmp/semgrep-scan-k3x9_q2a/\\/tmp/x.js"),
     report_value (py "/tmp/semgrep-scan-k3x9_q2a/\/tmp/x.js")) ].

Fixpoint lookup_document (docs : list (str * json)) (s : str) : pyerr + json :=
  match docs with
  | [] => inl JSONDecodeError
  | (text, v) :: rest =>
      if bool_decide (text = s) then inr v else lookup_document rest s
  end.

Definition sample_validate_str (v : json) : option str :=
  match v with
  | JStr s => Some s
  | _ => None
  end.

Definition sample_validate_int (v : json) : option Z :=
  match v with
  | JInt z => Some z
  | _ => None
  end.

#[local] Instance sample_runtime : PyRuntime.
Proof.
  refine {| upper_nonascii c := [c];
            json_loads := lookup_document sample_documents;
            validate_str := sample_validate_str;
            validate_int := sample_validate_int |}.
  - intros s. generalize sample_documents. intros docs.
    induction docs as [|[text v] rest IH]; simpl; [discriminate|].
    destruct (bool_decide (text = s)); [discriminate | exact IH].
  - reflexivity.
  - reflexivity.
Defined.

(** A file system holding [/tmp] and the installed service with its rules. *)
Definition sample_fs : fsmap :=
  list_to_map
    [ ([py "tmp"], Dir);
      ([py "app"], Dir);
      ([py "app"; py "main.py"], File (py "..."));
      ([py "app"; py "rules.yml"], File (py "rules: []")) ].

Definition sample_world : world := {| fs := sample_fs; trace := [] |}.

Definition sample_env (run : list str → fsmap → proc_result) : Env := {|
  cwd := [py "app"];
  module_file := py "/app/main.py";
  tempdir := py "/tmp";
  tmp_names := [py "k3x9_q2a"; py "w0_z81mc"];
  engine := run;
  elapsed_ms := 1234;
  rmtree_fails := false;
|}.

(** Sample engines and requests. *)
Definition clean_engine (cmd : list str) (f : fsmap) : proc_result :=
  Completed 0 (py "{}") [].
Definition failing_engine (cmd : list str) (f : fsmap) : proc_result :=
  Completed 2 [] (py "semgrep: invalid configuration").
Definition garbled_engine (cmd : list str) (f : fsmap) : proc_result :=
  Completed 1 (py "Segmentation fault") [].
Definition stalled_engine (cmd : list str) (f : fsmap) : proc_result :=
  RunRaises TimeoutExpired.

(** An engine that reports the file of [backslash_request] where it finds
    it below the scratch directory. *)
Definition reporting_engine (cmd : list str) (f : fsmap) : proc_result :=
  match f !! [py "tmp"; py "semgrep-scan-k3x9_q2a"; [backslash]; py "tmp"; py "x.js"] with
  | Some (File _) =>
      Completed 1 (report_text (py "/tmp/semgrep-scan-k3x9_q2a/\\/tmp/x.js")) []
  | _ => Completed 0 (py "{}") []
  end.

Definition sample_tmpdir : str := py "/tmp/semgrep-scan-k3x9_q2a".

Definition clean_request : ScanRequest :=
  {| files := [ {| fi_path := py "src/app.js"; fi_content := py "const x = 1;" |} ];
     rules_config := py "custom" |}.

Definition escaping_request : ScanRequest :=
  {| files := [ {| fi_path := py "../evil.txt"; fi_content := py "x" |} ];
     rules_config := py "custom" |}.

(** A request whose file has the absolute path of the bundled rules. *)
Definition overwriting_request : ScanRequest :=
  {| files := [ {| fi_path := py "/app/rules.yml"; fi_content := py "rules: [mine]" |} ];
     rules_config := py "custom" |}.

(** A request with a file in a directory named by a backslash. *)
Definition backslash_request : ScanRequest :=
  {| files := [ {| fi_path := py "\/tmp/x.js"; fi_content := py "eval(x)" |} ];
     rules_config := py "auto" |}.

Definition sample_result : json :=
  JDict (<[ py "check_id" := JStr (py "rules.js-eval-usage") ]>
         (<[ py "extra" := JDict {[ py "severity" := JStr (py "Error") ]} ]> ∅)).

(** The engine output of [test_parse_semgrep_output_with_results]. *)
Definition test_output : json :=
  JDict {[ py "results" :=
    JList [ JDict (list_to_map
      [ (py "check_id", JStr (py "rules.js-eval-usage"));
        (py "path", JStr (py "/tmp/scan/src/app.js"));
        (py "start", JDict (list_to_map [ (py "line", JInt 5); (py "col", JInt 1) ]));
        (py "end", JDict (list_to_map [ (py "line", JInt 5); (py "col", JInt 20) ]));
        (py "extra", JDict (list_to_map
           [ (py "message", JStr (py "Avoid eval() - security risk"));
             (py "severity", JStr (py "ERROR")) ])) ]) ] ]}.

Definition finding_at (p : str) : Finding :=
  {| rule_id := py "js-eval-usage"; path := p; line := 0; message := [];
     severity := py "info"; category := py "security" |}.

(** ** The health endpoint *)

(** The code points [str.strip()] removes. *)
Definition is_space (c : char) : bool :=
  bool_decide (c ∈ [ 9; 10; 11; 12; 13; 28; 29; 30; 31; 32; 133; 160; 5760;
                     8192; 8193; 8194; 8195; 8196; 8197; 8198; 8199; 8200;
                     8201; 8202; 8232; 8233; 8239; 8287; 12288 ]%N).

Fixpoint lstrip_space (s : str) : str :=
  match s with
  | [] => []
  | c :: s' => if is_space c then lstrip_space s' else s
  end.

Definition rstrip_space (s : str) : str := rev (lstrip_space (rev s)).

(** [s.strip()] *)
Definition strip (s : str) : str := rstrip_space (lstrip_space s).

Record HealthResponse := { status : str; semgrep_version : str }.

(** [get_semgrep_version]: the output of [semgrep --version] without the
    white space around it, or [unknown] when running it raises. *)
Definition get_semgrep_version (env : Env) : M str :=
  λ w, match subprocess_run env [py "semgrep"; py "--version"] w with
       | (Ok (_, stdout, _), w') => (Ok (strip stdout), w')
       | (Raise _, w') => (Ok (py "unknown"), w')
       end.

Definition health (env : Env) : M HealthResponse :=
  semgrep_version ← get_semgrep_version env;
  mret {| status := py "ok"; semgrep_version := semgrep_version |}.



(** An engine that answers the version query with a failing exit code. *)
Definition version_engine (cmd : list str) (f : fsmap) : proc_result :=
  Completed 2 (py " 1.45.0" ++ [10%N]) (py "warning: old release").

(** Engine output with two results, and with a result that is no object. *)
Definition two_results : gmap str json :=
  {[ py "results" := JList [sample_result; JDict ∅] ]}.

Definition broken_results : gmap str json :=
  {[ py "results" := JList [sample_result; JNull; sample_result] ]}.

(** A result that has a position and nothing else. *)
Definition bare_result : gmap str json :=
  {[ py "start" := JDict {[ py "line" := JInt 7 ]} ]}.

Definition with_module_file (m : str) (env : Env) : Env := {|
  cwd := cwd env;
  module_file := m;
  tempdir := tempdir env;
  tmp_names := tmp_names env;
  engine := engine env;
  elapsed_ms := elapsed_ms env;
  rmtree_fails := rmtree_fails env;
|}.

(** The service started from a directory that has no rules file. *)
Definition bare_env : Env :=
  with_module_file (py "/srv/main.py") (sample_env clean_engine).

Definition auto_request : ScanRequest :=
  {| files := files clean_request; rules_config := py "auto" |}.

(** ** Containment *)

(** A path of a request that is relative and has no [..] component. *)
Definition plain_path (key : str) : Prop :=
  startswith key [slash] = false ∧ py ".." ∉ split_on slash key.

#[global] Instance node_eq_dec : EqDecision node.
Proof. solve_decision. Defined.

(** The file system is a tree: what holds an entry is a directory. *)
Definition fs_tree (fs : fsmap) : Prop :=
  map_Forall (λ loc _, node_at fs (removelast loc) = Some Dir) fs.

(** [fs'] is [fs] but for what lies at [loc] and below. *)
Definition same_outside (loc : list str) (fs fs' : fsmap) : Prop :=
  ∀ l, ¬ loc `prefix_of` l → fs' !! l = fs !! l.

(** The scratch directory is there: from [start], the components [tparts]
    lead to the directory at [tmploc]. *)
Definition scratch_at (start tparts tmploc : list str) (fs : fsmap) : Prop :=
  walk fs start tparts = inr tmploc ∧ fs !! tmploc = Some Dir.

(** A request with plain paths, one of them for a file that cannot be
    written. *)
Definition nested_request : ScanRequest :=
  {| files := [ {| fi_path := py "src/lib/a.py"; fi_content := py "x = 1" |};
                {| fi_path := py "src//./b.js"; fi_content := py "eval(x)" |};
                {| fi_path := py "src/lib"; fi_content := py "no file" |} ];
     rules_config := py "custom" |}.

(** A runtime whose [json.loads] knows the documents [docs]. *)
Definition runtime_of (docs : list (str * json)) : PyRuntime.
Proof.
  refine {| upper_nonascii c := [c];
            json_loads := lookup_document docs;
            validate_str := sample_validate_str;
            validate_int := sample_validate_int |}.
  - intros s. induction docs as [|[text v] rest IH]; simpl; [discriminate|].
    destruct (bool_decide (text = s)); [discriminate | exact IH].
  - reflexivity.
  - reflexivity.
Defined.

(** An engine that prints a JSON list. *)
Definition listing_engine (cmd : list str) (f : fsmap) : proc_result :=
  Completed 0 (py "[]") [].

(** A request with two files in one directory. *)
Definition two_files_request : ScanRequest :=
  {| files := [ {| fi_path := py "src/lib/a.py"; fi_content := py "x = 1" |};
                {| fi_path := py "src/lib//./b.js"; fi_content := py "eval(x)" |} ];
     rules_config := py "custom" |}.

(** A raw result with well-typed fields. *)
Definition well_typed (result : json) : Prop :=
  match result with
  | JDict d => well_typed_result d
  | _ => False
  end.

(** The raw results the loop of [parse_semgrep_output] goes through:
    [output.get("results", [])], iterated. *)
Definition raw_results (output : json) : res (list json) :=
  results ← py_get output (py "results") (JList []);
  py_iter results.

(** The finding [f] carries the final segment of the identifier of the raw
    result [result]: the identifier itself when it has no dot, what follows
    its last dot otherwise, and [unknown] when the result has none. *)
Definition carries_final_segment (result : json) (f : Finding) : Prop :=
  match raw_check_id result with
  | None => rule_id f = py "unknown"
  | Some (JStr id) =>
      rule_id f = final_segment id ∧
      (dot ∉ rule_id f) ∧
      (dot ∉ id → rule_id f = id) ∧
      (dot ∈ id → ∃ ns, id = ns ++ dot :: rule_id f)
  | Some _ => False
  end.

(** The report of [reporting_engine] on [backslash_request]. *)
Definition reported : gmap str json :=
  {[ py "results" :=
    JList [ JDict (<[ py "check_id" := JStr (py "rules.js-eval-usage") ]>
                   {[ py "path" := JStr (py "/tmp/semgrep-scan-k3x9_q2a/\/tmp/x.js") ]}) ] ]}.

(** The world an engine leaves that has written a file of its own below
    the scratch directory of [nested_request]. *)
Definition engine_left : world :=
  {| fs := <[ [py "tmp"; py "semgrep-scan-k3x9_q2a"; py ".semgrep_cache"] :=
                File (py "cache") ]>
             (fs (staged (sample_env clean_engine) nested_request sample_world
                    sample_tmpdir));
     trace := [] |}.

(** * Properties *)

(** ** Severity *)

Section SeverityFacts.
Context `{RT : PyRuntime}.

Lemma severity_mapping_values k v :
  severity_mapping !! k = Some v → v ∈ severities.
Proof.
  unfold severity_mapping, severities. simpl.
  rewrite !lookup_insert, lookup_empty.
  repeat case_decide; intros ?; simplify_eq; set_solver.
Qed.

Lemma severity_mapping_other k :
  k ∉ [py "ERROR"; py "WARNING"; py "INFO"] → severity_mapping !! k = None.
Proof.
  intros Hk. unfold severity_mapping. simpl.
  rewrite !lookup_insert, lookup_empty.
  repeat case_decide; try done; subst; exfalso; apply Hk; set_solver.
Qed.

Lemma upper_char_of_lower c k :
  lower_ascii_char c = k → (97 ≤ k ≤ 122)%N → upper_char c = [(k - 32)%N].
Proof.
  unfold lower_ascii_char, upper_char. intros Hk Hr.
  destruct (N.leb_spec 65 c), (N.leb_spec c 90); simpl in Hk; subst k;
    destruct (N.leb_spec 97 c), (N.leb_spec c 122); simpl;
    destruct (N.ltb_spec c 128); try lia; f_equal; lia.
Qed.

Lemma upper_of_lower t s :
  lower_ascii t = s → Forall (λ k, (97 ≤ k ≤ 122)%N) s →
  upper t = List.map (λ k, (k - 32)%N) s.
Proof.
  revert s. induction t as [|c t IH]; intros s Hs Hall.
  - subst s. reflexivity.
  - simpl in Hs. subst s. inversion Hall as [|? ? Hk Hrest]; subst.
    unfold upper in *. simpl.
    rewrite (upper_char_of_lower c _ eq_refl Hk).
    simpl. f_equal. apply (IH _ eq_refl Hrest).
Qed.

Lemma lowercase_letters (s : string) :
  forallb (λ c, (97 <=? c)%N && (c <=? 122)%N) (py s) = true →
  Forall (λ k, (97 ≤ k ≤ 122)%N) (py s).
Proof.
  intros H. apply Forall_forall. intros c Hc.
  rewrite forallb_forall in H. apply list_elem_of_In in Hc. specialize (H c Hc).
  apply andb_true_iff in H as [H1 H2].
  apply N.leb_le in H1. apply N.leb_le in H2. lia.
Qed.

(** A token that reads as a key of the mapping once in small letters. *)
Ltac by_upper_case k Ht :=
  unfold map_severity;
  rewrite (upper_of_lower _ _ Ht (lowercase_letters k eq_refl));
  reflexivity.

Lemma map_severity_error t : lower_ascii t = py "error" → map_severity t = py "error".
Proof. intros Ht. by_upper_case "error"%string Ht. Qed.

Lemma map_severity_warning t :
  lower_ascii t = py "warning" → map_severity t = py "warning".
Proof. intros Ht. by_upper_case "warning"%string Ht. Qed.

Lemma map_severity_info t : lower_ascii t = py "info" → map_severity t = py "info".
Proof. intros Ht. by_upper_case "info"%string Ht. Qed.

Lemma map_severity_closed t : map_severity t ∈ severities.
Proof.
  unfold map_severity.
  destruct (severity_mapping !! upper t) as [v|] eqn:E; simpl.
  - eapply severity_mapping_values, E.
  - unfold severities. set_solver.
Qed.

Lemma map_severity_unrecognized t :
  upper t ∉ [py "ERROR"; py "WARNING"; py "INFO"] → map_severity t = py "info".
Proof.
  intros Hk. unfold map_severity. by rewrite severity_mapping_other.
Qed.

End SeverityFacts.

(** ** Category *)

Lemma todo_skip_not_security : py "test-todo-skip" ∉ security_rules.
Proof.
  apply (bool_decide_unpack (py "test-todo-skip" ∉ security_rules)).
  vm_compute. exact I.
Qed.

Lemma map_category_quality r :
  map_category r = py "quality" ↔ r = py "test-todo-skip".
Proof.
  unfold map_category. split.
  - repeat case_bool_decide; try done; intros ?; discriminate.
  - intros ->. rewrite (bool_decide_eq_false_2 _ todo_skip_not_security).
    by rewrite bool_decide_eq_true_2.
Qed.

Lemma map_category_security r :
  r ≠ py "test-todo-skip" → map_category r = py "security".
Proof.
  intros Hr. unfold map_category. by repeat case_bool_decide.
Qed.

(** ** Rule identifiers *)

Lemma startswith_nil s : startswith s [] = true.
Proof. by destruct s. Qed.

Lemma str_in_char c s : str_in [c] s = true ↔ c ∈ s.
Proof.
  induction s as [|a s IH]; simpl.
  - split; [discriminate | intros H; inversion H].
  - rewrite startswith_nil, andb_true_r, orb_true_iff, IH, N.eqb_eq, elem_of_cons.
    done.
Qed.

Lemma str_in_char_false c s : str_in [c] s = false ↔ c ∉ s.
Proof. rewrite <- str_in_char. by destruct (str_in [c] s). Qed.

Lemma rsplit1_spec sep s :
  ((sep ∉ s) ∧ rsplit1 sep s = [s]) ∨
  (∃ a b, s = a ++ sep :: b ∧ (sep ∉ b) ∧ rsplit1 sep s = [a; b]).
Proof.
  induction s as [|c s IH]; simpl.
  - left. split; [apply not_elem_of_nil | done].
  - destruct IH as [[Hn ->] | (a & b & -> & Hb & ->)].
    + destruct (N.eqb_spec c sep) as [->|Hc].
      * right. exists [], s. done.
      * left. split; [|done]. rewrite elem_of_cons. intros [?|?]; [congruence|done].
    + right. exists (c :: a), b. done.
Qed.

Lemma split_on_spec sep s :
  ((sep ∉ s) ∧ split_on sep s = [s]) ∨
  (∃ a b hd tl, s = a ++ sep :: b ∧ (sep ∉ b) ∧ split_on sep s = hd :: tl ++ [b]).
Proof.
  induction s as [|c s IH]; simpl.
  - left. split; [apply not_elem_of_nil | done].
  - destruct (N.eqb_spec c sep) as [->|Hc].
    + right. destruct IH as [[Hn ->] | (a & b & hd & tl & -> & Hb & ->)].
      * exists [], s, [], []. done.
      * exists (sep :: a), b, [], (hd :: tl). done.
    + destruct IH as [[Hn ->] | (a & b & hd & tl & -> & Hb & ->)].
      * left. split; [|done]. rewrite elem_of_cons. intros [?|?]; [congruence|done].
      * right. exists (c :: a), b, (c :: hd), tl. done.
Qed.

Lemma last_sep_unique (sep : char) a b a' b' :
  a ++ sep :: b = a' ++ sep :: b' → sep ∉ b → sep ∉ b' → b = b'.
Proof.
  revert a'. induction a as [|x a IH]; intros [|y a'] E Hb Hb'; simplify_eq/=.
  - done.
  - exfalso. apply Hb. rewrite elem_of_app, elem_of_cons. auto.
  - exfalso. apply Hb'. rewrite elem_of_app, elem_of_cons. auto.
  - by eapply IH.
Qed.

(** The last piece of [rsplit(sep, 1)] is the last piece of [split(sep)]. *)
Lemma rsplit1_last_split sep s :
  last_item (rsplit1 sep s) = last_item (split_on sep s).
Proof.
  destruct (rsplit1_spec sep s) as [[Hn ->] | (a & b & E & Hb & ->)];
    destruct (split_on_spec sep s) as [[Hn' ->] | (a' & b' & hd & tl & E' & Hb' & ->)].
  - done.
  - exfalso. apply Hn. rewrite E', elem_of_app, elem_of_cons. auto.
  - exfalso. apply Hn'. rewrite E, elem_of_app, elem_of_cons. auto.
  - unfold last_item. rewrite app_comm_cons, last_last. simpl.
    rewrite E in E'. eapply last_sep_unique; eauto.
Qed.

(** ** The parsed result *)

Section ParseFacts.
Context `{RT : PyRuntime}.

Lemma res_bind_Ok {A B} (m : res A) (k : A → res B) b :
  m ≫= k = Ok b → ∃ a, m = Ok a ∧ k a = Ok b.
Proof. destruct m as [a|e]; simpl; [eauto | discriminate]. Qed.

Lemma Ok_inj {A} (a b : A) : Ok a = Ok b → a = b.
Proof. congruence. Qed.

Lemma py_get_Ok o key dflt v :
  py_get o key dflt = Ok v → ∃ d, o = JDict d ∧ v = default dflt (d !! key).
Proof. destruct o; simpl; intros ?; simplify_eq. eauto. Qed.

(** What a finding says about the result it was made from. *)
Lemma parse_result_inv result f :
  parse_result result = Ok f →
  ∃ d cid st ex sv,
    result = JDict d ∧
    default (JStr (py "unknown")) (d !! py "check_id") = JStr cid ∧
    rule_id f = (if str_in (py ".") cid then last_item (rsplit1 dot cid) else cid) ∧
    validate_str (default (JStr []) (d !! py "path")) = Some (path f) ∧
    default (JDict ∅) (d !! py "start") = JDict st ∧
    validate_int (default (JInt 0) (st !! py "line")) = Some (line f) ∧
    default (JDict ∅) (d !! py "extra") = JDict ex ∧
    validate_str (default (JStr []) (ex !! py "message")) = Some (message f) ∧
    default (JStr (py "INFO")) (ex !! py "severity") = JStr sv ∧
    severity f = map_severity sv ∧
    category f = map_category (rule_id f).
Proof.
  unfold parse_result. intros H.
  apply res_bind_Ok in H as (c0 & H0 & H).
  apply py_get_Ok in H0 as (d & -> & ->).
  apply res_bind_Ok in H as (hd & Hd & H).
  apply res_bind_Ok in H as (c1 & H1 & H).
  apply res_bind_Ok in H as (pj & Hp & H).
  apply py_get_Ok in Hp as (d1 & E1 & ->). injection E1 as <-.
  apply res_bind_Ok in H as (stj & Hs & H).
  apply py_get_Ok in Hs as (d2 & E2 & ->). injection E2 as <-.
  apply res_bind_Ok in H as (lj & Hl & H).
  apply py_get_Ok in Hl as (st & Hst & ->).
  apply res_bind_Ok in H as (exj & He & H).
  apply py_get_Ok in He as (d3 & E3 & ->). injection E3 as <-.
  apply res_bind_Ok in H as (mj & Hm & H).
  apply py_get_Ok in Hm as (ex & Hex & ->).
  apply res_bind_Ok in H as (exj' & He' & H).
  apply py_get_Ok in He' as (d4 & E4 & ->). injection E4 as <-.
  apply res_bind_Ok in H as (sj & Hsv & H).
  apply py_get_Ok in Hsv as (ex' & Hex' & ->).
  rewrite Hex in Hex'. injection Hex' as <-.
  apply res_bind_Ok in H as (sev & Hsev & H).
  apply res_bind_Ok in H as (cat & Hcat & H).
  destruct (default (JStr (py "INFO")) (ex !! py "severity")) as [| | | |sv| |] eqn:Esv;
    simpl in Hsev; try discriminate. apply Ok_inj in Hsev as <-.
  assert (∃ cid, default (JStr (py "unknown")) (d !! py "check_id") = JStr cid ∧
                 c1 = JStr (if str_in (py ".") cid then last_item (rsplit1 dot cid) else cid))
    as (cid & Ecid & ->).
  { destruct (default (JStr (py "unknown")) (d !! py "check_id")) as [| | | |cid|l|dd] eqn:Ecid;
      simpl in Hd; try discriminate; injection Hd as <-.
    - exists cid. split; [done|].
      destruct (str_in (py ".") cid); simpl in H1; by injection H1 as <-.
    - destruct (existsb is_dot l); simpl in H1; try discriminate.
      injection H1 as <-. simpl in Hcat. discriminate.
    - destruct (bool_decide _); simpl in H1; try discriminate.
      injection H1 as <-. simpl in Hcat. discriminate. }
  simpl in Hcat. apply Ok_inj in Hcat as <-.
  unfold make_Finding in H. rewrite validate_str_JStr in H.
  destruct (validate_str (default (JStr (py "")) (d !! py "path"))) as [p|] eqn:Ep; [|done].
  destruct (validate_int (default (JInt 0) (st !! py "line"))) as [l|] eqn:El; [|done].
  destruct (validate_str (default (JStr (py "")) (ex !! py "message"))) as [m|] eqn:Em; [|done].
  apply Ok_inj in H as <-. simpl.
  exists d, cid, st, ex, sv. repeat split; assumption || reflexivity.
Qed.

Lemma raises_bind {A B} P (m : res A) (k : A → res B) :
  raises P m → (∀ a, raises P (k a)) → raises P (m ≫= k).
Proof.
  intros Hm Hk e. destruct m as [a|e']; simpl.
  - apply Hk.
  - intros [= <-]. by apply Hm.
Qed.

Lemma raises_Ok {A} P (a : A) : raises P (Ok a).
Proof. intros e. discriminate. Qed.

Lemma raises_py_get o key dflt : raises parse_error (py_get o key dflt).
Proof. intros e. destruct o; simpl; intros [= <-]; exact I. Qed.

Lemma raises_py_iter o : raises parse_error (py_iter o).
Proof. intros e. destruct o; simpl; intros [= <-]; exact I. Qed.

Lemma raises_py_dot_in o : raises parse_error (py_dot_in o).
Proof. intros e. destruct o; simpl; intros [= <-]; exact I. Qed.

Lemma raises_py_rsplit_last o : raises parse_error (py_rsplit_last o).
Proof. intros e. destruct o; simpl; intros [= <-]; exact I. Qed.

Lemma raises_py_map_severity o : raises parse_error (py_map_severity o).
Proof. intros e. destruct o; simpl; intros [= <-]; exact I. Qed.

Lemma raises_py_map_category o : raises parse_error (py_map_category o).
Proof. intros e. destruct o; simpl; intros [= <-]; exact I. Qed.

Lemma raises_make_Finding r p l m sev cat :
  raises parse_error (make_Finding r p l m sev cat).
Proof.
  intros e. unfold make_Finding.
  destruct (validate_str r), (validate_str p), (validate_int l), (validate_str m);
    intros [= <-]; exact I.
Qed.

Create HintDb raises.
#[local] Hint Resolve raises_Ok raises_py_get raises_py_iter raises_py_dot_in
  raises_py_rsplit_last raises_py_map_severity raises_py_map_category
  raises_make_Finding : raises.

(** Parsing raises nothing but the errors of a value of the wrong type. *)
Lemma raises_parse_result result : raises parse_error (parse_result result).
Proof.
  unfold parse_result.
  repeat (apply raises_bind; [|intros ?]);
    try match goal with
        | |- raises _ (if ?b then _ else _) => destruct b
        end;
    auto with raises.
Qed.

Lemma raises_parse_results results : raises parse_error (parse_results results).
Proof.
  induction results as [|result rest IH]; simpl; [apply raises_Ok|].
  apply raises_bind; [apply raises_parse_result|]. intros f.
  apply raises_bind; [exact IH|]. intros fl. apply raises_Ok.
Qed.

Lemma raises_parse_semgrep_output output :
  raises parse_error (parse_semgrep_output output).
Proof.
  unfold parse_semgrep_output.
  repeat (apply raises_bind; [|intros ?]); auto using raises_parse_results with raises.
Qed.

End ParseFacts.

(** ** The file system *)

Section FileSystemFacts.
Variable cwd : list str.

Lemma dirs_kept_refl fs : dirs_kept fs fs.
Proof. by intros loc. Qed.

Lemma dirs_kept_trans fs1 fs2 fs3 :
  dirs_kept fs1 fs2 → dirs_kept fs2 fs3 → dirs_kept fs1 fs3.
Proof. intros H1 H2 loc Hl. auto. Qed.

Lemma dirs_kept_insert (fs : fsmap) loc n :
  fs !! loc ≠ Some Dir → dirs_kept fs (<[loc := n]> fs).
Proof.
  intros Hn k Hk. destruct (decide (loc = k)) as [->|Hne]; [done|].
  by rewrite lookup_insert_ne.
Qed.

Lemma node_at_kept fs fs' loc :
  dirs_kept fs fs' → node_at fs loc = Some Dir → node_at fs' loc = Some Dir.
Proof. intros Hk. destruct loc; simpl; auto. Qed.

Lemma walk_kept fs fs' cur comps loc :
  dirs_kept fs fs' → walk fs cur comps = inr loc → walk fs' cur comps = inr loc.
Proof.
  intros Hk. revert cur. induction comps as [|c rest IH]; intros cur; simpl; [done|].
  destruct (node_at fs cur) as [[|?]|] eqn:E; try discriminate.
  rewrite (node_at_kept _ _ _ Hk E). case_bool_decide; apply IH.
Qed.

Lemma walk_app fs cur a b :
  walk fs cur (a ++ b) =
  match walk fs cur a with
  | inl e => inl e
  | inr loc => walk fs loc b
  end.
Proof.
  revert cur. induction a as [|c a IH]; intros cur; simpl; [done|].
  destruct (node_at fs cur) as [[|?]|]; try done. case_bool_decide; apply IH.
Qed.

Lemma parts_snoc (l : list str) name :
  last l = Some name → l = removelast l ++ [name].
Proof.
  destruct l as [|x l _] using rev_ind; [done|].
  rewrite last_snoc, removelast_last. by intros [= ->].
Qed.

(** A successful [os.mkdir]: the directory is new, its parent was there. *)
Lemma os_mkdir_inv fs p fs' :
  os_mkdir cwd fs p = inr fs' →
  ∃ dir name,
    has_nul p = false ∧
    walk fs (start_of cwd p) (removelast (parts p)) = inr dir ∧
    node_at fs dir = Some Dir ∧
    last (parts p) = Some name ∧ name ≠ py ".." ∧
    fs !! (dir ++ [name]) = None ∧
    fs' = <[dir ++ [name] := Dir]> fs.
Proof.
  unfold os_mkdir, lookup_parent. intros H.
  destruct (has_nul p); [done|].
  destruct (walk fs (start_of cwd p) (removelast (parts p))) as [e|dir] eqn:Ew; [done|].
  destruct (node_at fs dir) as [[|?]|] eqn:En; try done.
  destruct (last (parts p)) as [name|] eqn:El; [|done].
  case_bool_decide; [done|].
  destruct (fs !! (dir ++ [name])) eqn:Ef; [done|].
  injection H as <-. exists dir, name. done.
Qed.

Lemma os_mkdir_kept fs p fs' : os_mkdir cwd fs p = inr fs' → dirs_kept fs fs'.
Proof.
  intros H. apply os_mkdir_inv in H as (dir & name & _ & _ & _ & _ & _ & Hf & ->).
  apply dirs_kept_insert. by rewrite Hf.
Qed.


Lemma mkdir_exist_ok_kept fs p fs' :
  mkdir_exist_ok cwd fs p = inr fs' → dirs_kept fs fs'.
Proof.
  unfold mkdir_exist_ok.
  destruct (os_mkdir cwd fs p) as [e|fs1] eqn:E.
  - destruct (is_ENOENT e); [done|].
    destruct (is_OSError e && is_dir cwd fs p); [|done].
    intros [= <-]. apply dirs_kept_refl.
  - intros [= <-]. by eapply os_mkdir_kept.
Qed.

Lemma mkdir_parents_kept fs r rparts fs' :
  mkdir_parents cwd fs r rparts = inr fs' → dirs_kept fs fs'.
Proof.
  revert fs fs'. induction rparts as [|x rparent IH]; intros fs fs'; simpl.
  - destruct (os_mkdir cwd fs _) as [e|fs1] eqn:E.
    + destruct (is_ENOENT e); [done|].
      destruct (is_OSError e && is_dir cwd fs _); [|done].
      intros [= <-]. apply dirs_kept_refl.
    + intros [= <-]. by eapply os_mkdir_kept.
  - destruct (os_mkdir cwd fs _) as [e|fs1] eqn:E.
    + destruct (is_ENOENT e).
      * destruct (mkdir_parents cwd fs r rparent) as [e'|fs2] eqn:E2; [done|].
        intros H. eapply dirs_kept_trans; [by eapply IH|].
        by eapply mkdir_exist_ok_kept.
      * destruct (is_OSError e && is_dir cwd fs _); [|done].
        intros [= <-]. apply dirs_kept_refl.
    + intros [= <-]. by eapply os_mkdir_kept.
Qed.

Lemma write_text_kept fs p content fs' err :
  write_text cwd fs p content = (fs', err) → dirs_kept fs fs'.
Proof.
  unfold write_text. destruct (has_nul p); [intros [= <- _]; apply dirs_kept_refl|].
  destruct (lookup_parent cwd fs p) as [e|[dir [name|]]];
    try (intros [= <- _]; apply dirs_kept_refl).
  case_bool_decide; [intros [= <- _]; apply dirs_kept_refl|].
  destruct (fs !! (dir ++ [name])) as [[|c]|] eqn:E;
    [intros [= <- _]; apply dirs_kept_refl| |];
    destruct (existsb is_surrogate content); intros [= <- _];
    apply dirs_kept_insert; by rewrite E.
Qed.

(** A written file is found where its path leads, with the text written. *)
Lemma write_text_stat fs p content fs' :
  write_text cwd fs p content = (fs', None) →
  os_stat cwd fs' p = Some (File content).
Proof.
  intros H. pose proof (write_text_kept _ _ _ _ _ H) as Hk.
  unfold write_text, lookup_parent in H. unfold os_stat.
  destruct (has_nul p); [done|].
  destruct (walk fs (start_of cwd p) (removelast (parts p))) as [e|dir] eqn:Ew; [done|].
  destruct (node_at fs dir) as [[|?]|] eqn:En; try done.
  destruct (last (parts p)) as [name|] eqn:El; [|done].
  case_bool_decide as Hdots; [done|].
  assert (fs' = <[dir ++ [name] := File content]> fs) as ->.
  { destruct (fs !! (dir ++ [name])) as [[|?]|]; try done;
      destruct (existsb is_surrogate content); by injection H as <-. }
  rewrite (parts_snoc _ _ El), walk_app, (walk_kept _ _ _ _ _ Hk Ew). simpl.
  rewrite (node_at_kept _ _ _ Hk En), (bool_decide_eq_false_2 _ Hdots).
  destruct dir; simpl; apply lookup_insert_eq.
Qed.




End FileSystemFacts.

(** ** The handler *)

Section ServiceFacts.
Context `{RT : PyRuntime}.
Variable env : Env.

Lemma M_bind_unfold {A B} (m : M A) (k : A → M B) w :
  (m ≫= k) w =
  match m w with
  | (Ok a, w') => k a w'
  | (Raise e, w') => (Raise e, w')
  end.
Proof. reflexivity. Qed.

Lemma mkdtemp_from_inv names prefix w r w1 :
  mkdtemp_from env names prefix w = (r, w1) →
  match r with
  | Raise e => w1 = w
  | Ok tmpdir =>
      ∃ name, name ∈ names ∧
        tmpdir = posix_join (tempdir env) (prefix ++ name) ∧
        os_mkdir (cwd env) (fs w) (parse_path tmpdir) = inr (fs w1) ∧
        trace w1 = trace w ++ [EvMkdtemp tmpdir]
  end.
Proof.
  induction names as [|name rest IH]; simpl.
  - unfold raise. by intros [= <- <-].
  - destruct (os_mkdir _ _ _) as [e|fs'] eqn:E.
    + destruct e as [| |[]| | | | | | |];
        try (by intros [= <- <-]).
      intros H. specialize (IH H). destruct r; [|done].
      destruct IH as (n & Hn & IH). exists n. split; [by right|done].
    + intros [= <- <-]. exists name. split; [by left|]. done.
Qed.

Lemma write_files_effect tmpdir l w r w' :
  write_files env tmpdir l w = (r, w') →
  trace w' = trace w ∧ dirs_kept (fs w) (fs w').
Proof.
  revert w. induction l as [|f rest IH]; intros w; simpl.
  - intros [= <- <-]. split; [done | apply dirs_kept_refl].
  - rewrite M_bind_unfold. unfold Path_mkdir_parents at 1.
    destruct (mkdir_parents _ _ _ _) as [e|fs1] eqn:E1.
    { intros [= <- <-]. split; [done | apply dirs_kept_refl]. }
    apply mkdir_parents_kept in E1.
    rewrite M_bind_unfold. unfold Path_write_text at 1. simpl.
    destruct (write_text _ _ _ _) as [fs2 [e|]] eqn:E2;
      apply write_text_kept in E2.
    { intros [= <- <-]. split; [done|]. by eapply dirs_kept_trans. }
    intros H. apply IH in H as [Ht Hk]. simpl in *. split; [done|].
    eapply dirs_kept_trans; [|exact Hk]. by eapply dirs_kept_trans.
Qed.

Lemma write_files_app tmpdir l1 l2 w :
  write_files env tmpdir (l1 ++ l2) w =
  match write_files env tmpdir l1 w with
  | (Ok _, w1) => write_files env tmpdir l2 w1
  | (Raise e, w1) => (Raise e, w1)
  end.
Proof.
  revert w. induction l1 as [|f rest IH]; intros w; simpl; [done|].
  rewrite !M_bind_unfold.
  destruct (Path_mkdir_parents env _ w) as [[[]|e] w1]; [|done].
  rewrite !M_bind_unfold.
  destruct (Path_write_text env _ _ w1) as [[[]|e] w2]; [|done].
  apply IH.
Qed.


Lemma resolve_config_world request w r w' :
  resolve_config env request w = (r, w') → w' = w.
Proof.
  unfold resolve_config. case_bool_decide; [by intros [= _ <-]|].
  rewrite M_bind_unfold. unfold Path_exists.
  destruct (exists_ _ _ _); by intros [= _ <-].
Qed.

(** [scan] on a request with files, step by step. *)
Lemma scan_nonempty request w :
  files request ≠ [] →
  scan env request w =
  match mkdtemp env scratch_prefix w with
  | (Ok tmpdir, w1) =>
      try_finally (scan_body env request tmpdir) (rmtree_ignore_errors env tmpdir) w1
  | (Raise e, w1) => (Raise e, w1)
  end.
Proof. unfold scan. destruct (files request); [done|]. reflexivity. Qed.

Lemma scan_body_written request tmpdir w w2 cfg :
  write_files env tmpdir (files request) w = (Ok (), w2) →
  resolve_config env request w2 = (Ok cfg, w2) →
  scan_body env request tmpdir w =
  match engine env (semgrep_cmd cfg tmpdir) (fs w2) with
  | Completed rc out err =>
      (interpret_result env request tmpdir (rc, out, err),
       ran w2 (semgrep_cmd cfg tmpdir))
  | RunRaises e => (Raise (Py e), ran w2 (semgrep_cmd cfg tmpdir))
  end.
Proof.
  intros Hw Hc. unfold scan_body.
  rewrite M_bind_unfold, Hw, M_bind_unfold, Hc, M_bind_unfold.
  unfold subprocess_run, ran.
  destruct (engine env _ _); reflexivity.
Qed.

Lemma scan_body_write_failed request tmpdir w e w2 :
  write_files env tmpdir (files request) w = (Raise e, w2) →
  scan_body env request tmpdir w = (Raise e, w2).
Proof. intros Hw. unfold scan_body. by rewrite M_bind_unfold, Hw. Qed.


End ServiceFacts.

Lemma os_mkdir_error cwd fs p e : os_mkdir cwd fs p = inl e → fs_error e.
Proof.
  unfold os_mkdir. destruct (has_nul p); [by intros [= <-]|].
  destruct (lookup_parent cwd fs p) as [?|[dir [name|]]]; try by intros [= <-].
  case_bool_decide; [by intros [= <-]|].
  destruct (fs !! _); [by intros [= <-]|done].
Qed.

Lemma mkdir_exist_ok_error cwd fs p e : mkdir_exist_ok cwd fs p = inl e → fs_error e.
Proof.
  unfold mkdir_exist_ok. destruct (os_mkdir cwd fs p) as [e1|] eqn:E; [|done].
  apply os_mkdir_error in E.
  destruct (is_ENOENT e1); [by intros [= <-]|].
  destruct (_ && _); [done | by intros [= <-]].
Qed.

Lemma mkdir_parents_error cwd fs r rparts e :
  mkdir_parents cwd fs r rparts = inl e → fs_error e.
Proof.
  revert fs. induction rparts as [|x rparent IH]; intros fs; simpl;
    destruct (os_mkdir cwd fs _) as [e1|] eqn:E; try done;
    apply os_mkdir_error in E; destruct (is_ENOENT e1).
  - by intros [= <-].
  - destruct (_ && _); [done | by intros [= <-]].
  - destruct (mkdir_parents cwd fs r rparent) as [e2|fs2] eqn:E2.
    + intros [= <-]. by eapply IH.
    + apply mkdir_exist_ok_error.
  - destruct (_ && _); [done | by intros [= <-]].
Qed.

Lemma write_text_error cwd fs p content fs' e :
  write_text cwd fs p content = (fs', Some e) → fs_error e.
Proof.
  unfold write_text. destruct (has_nul p); [by intros [= _ <-]|].
  destruct (lookup_parent cwd fs p) as [?|[dir [name|]]]; try by intros [= _ <-].
  case_bool_decide; [by intros [= _ <-]|].
  destruct (fs !! _) as [[|?]|]; try (by intros [= _ <-]);
    destruct (existsb is_surrogate content); by intros [= _ <-].
Qed.

Lemma handler_fs_error `{PyRuntime} e :
  fs_error e → handler (Py e) = HTTPException 500 (StrOf e).
Proof. by destruct e. Qed.

Lemma write_files_raises `{PyRuntime} env tmpdir l w e w2 :
  write_files env tmpdir l w = (Raise e, w2) →
  ∃ e', e = Py e' ∧ fs_error e'.
Proof.
  revert w. induction l as [|f rest IH]; intros w; simpl; [done|].
  rewrite M_bind_unfold. unfold Path_mkdir_parents at 1.
  destruct (mkdir_parents _ _ _ _) as [e1|fs1] eqn:E1.
  { intros [= <- <-]. exists e1. split; [done|]. by eapply mkdir_parents_error. }
  rewrite M_bind_unfold. unfold Path_write_text at 1. simpl.
  destruct (write_text _ _ _ _) as [fs2 [e2|]] eqn:E2.
  { intros [= <- <-]. exists e2. split; [done|]. by eapply write_text_error. }
  apply IH.
Qed.

Section ScanFacts.
Context `{RT : PyRuntime}.
Variable env : Env.

Lemma scan_reaches_engine request w tmpdir w2 cfg :
  reaches_engine env request w tmpdir w2 cfg →
  scan env request w =
  let w3 := rmtree_ignore_errors env tmpdir (ran w2 (semgrep_cmd cfg tmpdir)) in
  match engine env (semgrep_cmd cfg tmpdir) (fs w2) with
  | Completed rc out err =>
      (match interpret_result env request tmpdir (rc, out, err) with
       | Ok resp => Ok resp
       | Raise e => Raise (handler e)
       end, w3)
  | RunRaises e => (Raise (handler (Py e)), w3)
  end.
Proof.
  intros (Hne & w1 & Hm & Hw & Hc).
  rewrite (scan_nonempty _ _ _ Hne), Hm. unfold try_finally.
  rewrite (scan_body_written _ _ _ _ _ _ Hw Hc).
  destruct (engine env _ _) as [rc out err|e]; [|done].
  by destruct (interpret_result _ _ _ _).
Qed.

Lemma pair_split {A B} (x : A * B) (a : A) : x.1 = a → x = (a, x.2).
Proof. destruct x. simpl. by intros ->. Qed.

Lemma reaches_engine_intro request w tmpdir cfg :
  files request ≠ [] →
  (mkdtemp env scratch_prefix w).1 = Ok tmpdir →
  (write_files env tmpdir (files request) (mkdtemp env scratch_prefix w).2).1 = Ok () →
  (resolve_config env request (staged env request w tmpdir)).1 = Ok cfg →
  reaches_engine env request w tmpdir (staged env request w tmpdir) cfg.
Proof.
  intros Hne Hm Hw Hc. split; [done|].
  exists (mkdtemp env scratch_prefix w).2. split_and!.
  - by apply pair_split.
  - by apply pair_split.
  - destruct (resolve_config env request (staged env request w tmpdir)) as [r w'] eqn:E.
    apply resolve_config_world in E as ->. simpl in Hc. by subst r.
Qed.

Lemma interpret_result_Ok request tmpdir rc out err resp :
  interpret_result env request tmpdir (rc, out, err) = Ok resp →
  (rc = 0 ∨ rc = 1) ∧
  ∃ output fl,
    json_loads out = inr output ∧
    parse_semgrep_output output = Ok fl ∧
    resp = {| findings := List.map (normalize_path tmpdir) fl;
              duration_ms := elapsed_ms env;
              files_scanned := Z.of_nat (length (files request)) |}.
Proof.
  unfold interpret_result. case_bool_decide as Hrc; simpl; [|done].
  intros H. split.
  { rewrite !elem_of_cons in Hrc. destruct Hrc as [?|[?|Hn]]; auto. inversion Hn. }
  apply res_bind_Ok in H as (output & Ho & H).
  apply res_bind_Ok in H as (fl & Hf & H).
  apply Ok_inj in H as <-.
  exists output, fl. split_and!; try done.
  destruct (json_loads out) as [[]|v]; by simplify_eq.
Qed.

Lemma interpret_result_success request tmpdir rc out err output fl :
  rc = 0 ∨ rc = 1 →
  json_loads out = inr output →
  parse_semgrep_output output = Ok fl →
  interpret_result env request tmpdir (rc, out, err) =
  Ok {| findings := List.map (normalize_path tmpdir) fl;
        duration_ms := elapsed_ms env;
        files_scanned := Z.of_nat (length (files request)) |}.
Proof.
  intros Hrc Ho Hf. unfold interpret_result.
  rewrite bool_decide_eq_true_2; [|destruct Hrc as [->| ->]; set_solver].
  simpl. rewrite Ho. simpl. rewrite Hf. reflexivity.
Qed.

Lemma interpret_result_exit_code request tmpdir rc out err :
  rc ≠ 0 → rc ≠ 1 →
  interpret_result env request tmpdir (rc, out, err) =
  Raise (HTTPException 500 (Text (py "Semgrep error: " ++ take 500 err))).
Proof.
  intros H0 H1. unfold interpret_result.
  rewrite bool_decide_eq_false_2; [done|].
  rewrite !elem_of_cons. intros [?|[?|Hn]]; try done. inversion Hn.
Qed.

Lemma interpret_result_malformed request tmpdir rc out err :
  rc = 0 ∨ rc = 1 →
  json_loads out = inl JSONDecodeError →
  interpret_result env request tmpdir (rc, out, err) =
  Raise (HTTPException 500
           (Text (py "Failed to parse Semgrep output: " ++ take 200 out))).
Proof.
  intros Hrc Ho. unfold interpret_result.
  rewrite bool_decide_eq_true_2; [|destruct Hrc as [->| ->]; set_solver].
  simpl. by rewrite Ho.
Qed.



Lemma scan_body_Ok request tmpdir w resp w' :
  scan_body env request tmpdir w = (Ok resp, w') →
  files_scanned resp = Z.of_nat (length (files request)).
Proof.
  destruct (write_files env tmpdir (files request) w) as [[[]|e] w2] eqn:Hw.
  - destruct (resolve_config env request w2) as [[cfg|e] w3] eqn:Hc;
      pose proof (resolve_config_world _ _ _ _ _ Hc) as ->.
    + rewrite (scan_body_written _ _ _ _ _ _ Hw Hc).
      destruct (engine env _ _) as [rc out err|e]; [|done].
      intros [= Hi _]. apply interpret_result_Ok in Hi as (_ & ? & ? & _ & _ & ->).
      reflexivity.
    + unfold scan_body. by rewrite M_bind_unfold, Hw, M_bind_unfold, Hc.
  - by rewrite (scan_body_write_failed _ _ _ _ _ _ Hw).
Qed.

End ScanFacts.

(** ** Release of the scratch directory *)

Section CleanupFacts.
Context `{RT : PyRuntime}.
Variable env : Env.






End CleanupFacts.



(** ** The final segment of an identifier *)

Lemma final_segment_spec id :
  (dot ∉ final_segment id) ∧
  (dot ∉ id → final_segment id = id) ∧
  (dot ∈ id → ∃ ns, id = ns ++ dot :: final_segment id).
Proof.
  unfold final_segment.
  destruct (split_on_spec dot id) as [[Hn ->] | (a & b & hd & tl & -> & Hb & ->)].
  - split_and!; [done | done | intros Hin; by destruct Hn].
  - unfold last_item. rewrite app_comm_cons, last_last. split_and!.
    + done.
    + intros Hn. exfalso. apply Hn. rewrite elem_of_app, elem_of_cons. auto.
    + intros _. by exists a.
Qed.

Lemma rule_id_of_check_id cid :
  (if str_in (py ".") cid then last_item (rsplit1 dot cid) else cid) = final_segment cid.
Proof.
  destruct (str_in (py ".") cid) eqn:E.
  - apply rsplit1_last_split.
  - apply (str_in_char_false dot) in E. symmetry. by apply final_segment_spec.
Qed.

Section WellTyped.
Context `{RT : PyRuntime}.

Lemma default_str_or_missing (o : option json) (dflt : str) :
  str_or_missing o → ∃ s, default (JStr dflt) o = JStr s.
Proof. destruct o as [[]|]; simpl; try done; eauto. Qed.

Lemma default_int_or_missing (o : option json) (dflt : Z) :
  int_or_missing o → ∃ z, default (JInt dflt) o = JInt z.
Proof. destruct o as [[]|]; simpl; try done; eauto. Qed.

(** A result with well-typed fields always gives a finding. *)
Lemma parse_result_well_typed d :
  well_typed_result d → ∃ f, parse_result (JDict d) = Ok f.
Proof.
  intros (Hc & Hp & Hs & He).
  destruct (default_str_or_missing _ (py "unknown") Hc) as [cid Ecid].
  destruct (default_str_or_missing _ (py "") Hp) as [p Ep].
  assert (∃ st l, default (JDict ∅) (d !! py "start") = JDict st ∧
                  default (JInt 0) (st !! py "line") = JInt l) as (st & l & Est & El).
  { destruct (d !! py "start") as [[| | | | | |st]|]; try done; simpl.
    - destruct (default_int_or_missing _ 0 Hs) as [l El]. eauto.
    - exists ∅, 0. by rewrite lookup_empty. }
  assert (∃ ex m v, default (JDict ∅) (d !! py "extra") = JDict ex ∧
                    default (JStr (py "")) (ex !! py "message") = JStr m ∧
                    default (JStr (py "INFO")) (ex !! py "severity") = JStr v)
    as (ex & m & v & Eex & Em & Ev).
  { destruct (d !! py "extra") as [[| | | | | |ex]|]; try done; simpl.
    - destruct He as [Hm Hv].
      destruct (default_str_or_missing _ (py "") Hm) as [m Em].
      destruct (default_str_or_missing _ (py "INFO") Hv) as [v Ev]. eauto 6.
    - exists ∅, (py ""), (py "INFO"). by rewrite !lookup_empty. }
  unfold parse_result. simpl. rewrite Ecid. simpl.
  destruct (str_in (py ".") cid); simpl;
    rewrite Ep, Est; simpl; rewrite El, Eex; simpl; rewrite Em, Ev; simpl;
    unfold make_Finding; rewrite !validate_str_JStr, validate_int_JInt; eauto.
Qed.

End WellTyped.

(** ** Paths of the findings *)

Lemma startswith_app s x : startswith (s ++ x) s = true.
Proof.
  induction s as [|c s IH]; simpl; [apply startswith_nil|].
  by rewrite N.eqb_refl.
Qed.

Lemma lstrip_run (c : char) (run rest : str) :
  Forall (λ x, x = c) run →
  match rest with [] => True | x :: _ => x ≠ c end →
  lstrip [c] (run ++ rest) = rest.
Proof.
  intros Hrun Hrest. induction Hrun as [|x run -> _ IH]; simpl.
  - destruct rest as [|x rest]; [done|]. simpl.
    destruct (N.eqb_spec x c); [done|]. reflexivity.
  - by rewrite N.eqb_refl.
Qed.

(** What the rewriting does get right: below the scratch directory, a path
    that goes on with slashes and then a name that starts with neither
    separator is cut down to that name and what follows. *)
Lemma normalize_path_under_root tmpdir f seps rel :
  path f = tmpdir ++ seps ++ rel →
  Forall (λ x, x = slash) seps →
  match rel with [] => True | x :: _ => x ≠ slash ∧ x ≠ backslash end →
  path (normalize_path tmpdir f) = rel.
Proof.
  intros Hp Hseps Hrel. unfold normalize_path.
  rewrite Hp, startswith_app. simpl.
  rewrite drop_app_length.
  rewrite (lstrip_run slash seps rel Hseps).
  - apply (lstrip_run backslash [] rel); [constructor|]. destruct rel; tauto.
  - destruct rel; tauto.
Qed.

(** What it gets wrong, whatever the scratch directory: after a slash and a
    backslash the next slash is left in front. *)
Lemma normalize_path_mixed_separators tmpdir rest :
  path (normalize_path tmpdir
          (finding_at (tmpdir ++ slash :: backslash :: slash :: rest))) =
  slash :: rest.
Proof.
  unfold normalize_path. simpl. rewrite startswith_app. simpl.
  by rewrite drop_app_length.
Qed.

Lemma normalize_path_elsewhere tmpdir f :
  startswith (path f) tmpdir = false → normalize_path tmpdir f = f.
Proof. intros H. unfold normalize_path. by rewrite H. Qed.

(** ** The tests of the helpers in [test_main.py] *)

Section TestHelpers.
Context `{RT : PyRuntime}.

Example test_map_severity :
  map_severity (py "ERROR") = py "error" ∧
  map_severity (py "WARNING") = py "warning" ∧
  map_severity (py "INFO") = py "info" ∧
  map_severity (py "unknown") = py "info".
Proof. split_and!; vm_compute; reflexivity. Qed.

Example test_map_category_security :
  map_category (py "js-eval-usage") = py "security" ∧
  map_category (py "sql-string-concat") = py "security" ∧
  map_category (py "hardcoded-secret-generic") = py "security".
Proof. split_and!; vm_compute; reflexivity. Qed.

Example test_map_category_quality :
  map_category (py "test-todo-skip") = py "quality".
Proof. vm_compute. reflexivity. Qed.

Example test_parse_semgrep_output_empty :
  parse_semgrep_output (JDict {[ py "results" := JList [] ]}) = Ok [].
Proof. vm_compute. reflexivity. Qed.

Example test_parse_semgrep_output_with_results :
  parse_semgrep_output test_output =
  Ok [ {| rule_id := py "js-eval-usage"; path := py "/tmp/scan/src/app.js";
          line := 5; message := py "Avoid eval() - security risk";
          severity := py "error"; category := py "security" |} ].
Proof.
  destruct RT as [up loads vstr vint Hloads Hstr Hint].
  vm_compute. rewrite !Hstr, Hint. reflexivity.
Qed.

End TestHelpers.

(** ** The findings of a report *)

Section ParseOrder.
Context `{RT : PyRuntime}.

Lemma parse_results_Ok results fl :
  parse_results results = Ok fl ↔
  Forall2 (λ r f, parse_result r = Ok f) results fl.
Proof.
  revert fl. induction results as [|r rest IH]; intros fl; simpl.
  - split.
    + intros [= <-]. constructor.
    + intros Hf. by inversion Hf.
  - split.
    + intros H. apply res_bind_Ok in H as (f & Hf & H).
      apply res_bind_Ok in H as (fl' & Hfl & H). apply Ok_inj in H as <-.
      constructor; [done | by apply IH].
    + intros Hf. inversion Hf as [|? f ? fl' Hr Hrest]; subst.
      rewrite Hr. simpl. apply IH in Hrest. rewrite Hrest. reflexivity.
Qed.

Lemma parse_results_Raise results e :
  parse_results results = Raise e ↔
  ∃ before bad rest fl,
    results = before ++ bad :: rest ∧
    Forall2 (λ r f, parse_result r = Ok f) before fl ∧
    parse_result bad = Raise e.
Proof.
  induction results as [|r rest IH]; simpl.
  - split; [done|]. intros (before & bad & rest & fl & E & _). by destruct before.
  - split.
    + destruct (parse_result r) as [f|e'] eqn:Hr; simpl.
      * destruct (parse_results rest) as [fl|e'] eqn:Hrest in |- *; simpl; [done|].
        intros [= ->]. apply IH in Hrest as (before & bad & rest' & fl & -> & Hfl & Hbad).
        exists (r :: before), bad, rest', (f :: fl). split_and!; try done.
        by constructor.
      * intros [= ->]. exists [], r, rest, []. split_and!; done.
    + intros (before & bad & rest' & fl & E & Hfl & Hbad).
      destruct before as [|r' before]; simpl in E; injection E as -> ->.
      * by rewrite Hbad.
      * inversion Hfl as [|? f ? fl' Hr Hrest']; subst. rewrite Hr. simpl.
        assert (parse_results (before ++ bad :: rest') = Raise e) as ->; [|done].
        apply IH. eauto 8.
Qed.

End ParseOrder.

Lemma parse_results_well_typed `{PyRuntime} results :
  Forall well_typed results →
  ∃ fl, parse_results results = Ok fl ∧ length fl = length results.
Proof.
  induction 1 as [|r rest Hr _ (fl & Hfl & Hlen)]; simpl; [by exists []|].
  destruct r as [| | | | | |d]; try done.
  destruct (parse_result_well_typed d Hr) as [f Hf].
  exists (f :: fl). rewrite Hf. simpl. rewrite Hfl. simpl. by rewrite Hlen.
Qed.

Lemma parse_semgrep_output_raw `{PyRuntime} output :
  parse_semgrep_output output = (items ← raw_results output; parse_results items).
Proof.
  unfold parse_semgrep_output, raw_results.
  by destruct (py_get output (py "results") (JList [])).
Qed.

(** The identifier of the finding made from one raw result. *)
Lemma parse_result_id `{PyRuntime} result f :
  parse_result result = Ok f → carries_final_segment result f.
Proof.
  intros Hp. unfold carries_final_segment.
  apply parse_result_inv in Hp
    as (d & cid & st & ex & sv & -> & Hcid & Hr & _).
  rewrite rule_id_of_check_id in Hr. simpl.
  destruct (d !! py "check_id") as [v|]; simpl in Hcid.
  - subst v. rewrite Hr. split; [done|]. apply final_segment_spec.
  - injection Hcid as <-. rewrite Hr. by vm_compute.
Qed.

Lemma parse_results_ids `{PyRuntime} results fl :
  parse_results results = Ok fl → Forall2 carries_final_segment results fl.
Proof.
  intros Hp. apply parse_results_Ok in Hp.
  induction Hp as [|r f rest fl' Hr _ IH]; constructor; [|done].
  by apply parse_result_id.
Qed.

Lemma normalize_path_rule_id tmpdir f :
  rule_id (normalize_path tmpdir f) = rule_id f.
Proof. unfold normalize_path. by destruct (startswith _ _). Qed.

Lemma carries_final_segment_normalized tmpdir results fl :
  Forall2 carries_final_segment results fl →
  Forall2 carries_final_segment results (List.map (normalize_path tmpdir) fl).
Proof.
  induction 1 as [|r f rest fl' Hr _ IH]; simpl; constructor; [|done].
  unfold carries_final_segment in *. by rewrite normalize_path_rule_id.
Qed.

(** * The properties of the specification *)

Example spec_inside_workspace_cases :
  spec_inside_workspace sample_tmpdir (py "src/app.js") = true ∧
  spec_inside_workspace sample_tmpdir (py "a/../b.js") = true ∧
  spec_inside_workspace sample_tmpdir (py "../evil.txt") = false ∧
  spec_inside_workspace sample_tmpdir (py "a/../../evil.txt") = false ∧
  spec_inside_workspace sample_tmpdir (py "/etc/passwd") = false.
Proof. split_and!; vm_compute; reflexivity. Qed.




Lemma escaping_file_stays :
  (scan (sample_env clean_engine) escaping_request sample_world).1 =
    Ok {| findings := []; duration_ms := 1234; files_scanned := 1 |} ∧
  os_stat [py "app"] (fs (scan (sample_env clean_engine) escaping_request sample_world).2)
    (parse_path (py "/tmp/evil.txt")) = Some (File (py "x")).
Proof. split; vm_compute; reflexivity. Qed.

(** An absolute path is written as it stands: the request replaces the
    bundled rules file, the engine runs on the new rules, and the file is
    still there afterwards. *)
Lemma absolute_path_overwrites_rules :
  spec_inside_workspace sample_tmpdir (py "/app/rules.yml") = false ∧
  (scan (sample_env clean_engine) overwriting_request sample_world).1 =
    Ok {| findings := []; duration_ms := 1234; files_scanned := 1 |} ∧
  os_stat [py "app"]
    (fs (scan (sample_env clean_engine) overwriting_request sample_world).2)
    (RULES_PATH (sample_env clean_engine)) = Some (File (py "rules: [mine]")).
Proof. split_and!; vm_compute; reflexivity. Qed.

(** C2: when the engine process completes, an exit code other than 0 and 1
    makes the scan a tool failure (status 500) whose detail carries at most
    the first 500 characters of the error stream; with exit code 0 and with
    exit code 1 alike, output that parses is answered with success. *)
Theorem exit_code_classification `{PyRuntime} (env : Env) (request : ScanRequest)
    (w : world) (tmpdir : str) (w2 : world) (cfg : str)
    (rc : Z) (out err : str) :
  reaches_engine env request w tmpdir w2 cfg →
  engine env (semgrep_cmd cfg tmpdir) (fs w2) = Completed rc out err →
  (rc ≠ 0 → rc ≠ 1 →
   (scan env request w).1 =
     Raise (HTTPException 500 (Text (py "Semgrep error: " ++ take 500 err))) ∧
   (length (take 500 err) ≤ 500)%nat ∧ take 500 err `prefix_of` err) ∧
  (rc = 0 ∨ rc = 1 →
   ∀ output fl,
     json_loads out = inr output →
     parse_semgrep_output output = Ok fl →
     (scan env request w).1 =
       Ok {| findings := List.map (normalize_path tmpdir) fl;
             duration_ms := elapsed_ms env;
             files_scanned := Z.of_nat (length (files request)) |}).
Proof.
  intros Hr He. rewrite (scan_reaches_engine _ _ _ _ _ _ Hr), He. simpl. split.
  - intros H0 H1. rewrite (interpret_result_exit_code _ _ _ _ _ _ H0 H1).
    split_and!; [done | rewrite length_take; lia | apply prefix_take].
  - intros Hrc output fl Ho Hf.
    by rewrite (interpret_result_success _ _ _ _ _ _ _ _ Hrc Ho Hf).
Qed.

Lemma exit_code_classification_witness :
  (scan (sample_env failing_engine) clean_request sample_world).1 =
    Raise (HTTPException 500
             (Text (py "Semgrep error: semgrep: invalid configuration"))) ∧
  (scan (sample_env clean_engine) clean_request sample_world).1 =
    Ok {| findings := []; duration_ms := 1234; files_scanned := 1 |}.
Proof.
  split.
  - destruct (exit_code_classification (sample_env failing_engine) clean_request
                sample_world sample_tmpdir
                (staged (sample_env failing_engine) clean_request sample_world sample_tmpdir)
                (py "/app/rules.yml")
                2 [] (py "semgrep: invalid configuration")) as [Hfail _].
    + apply reaches_engine_intro; [discriminate | vm_compute; reflexivity ..].
    + reflexivity.
    + destruct Hfail as [E _]; [discriminate | discriminate | exact E].
  - destruct (exit_code_classification (sample_env clean_engine) clean_request
                sample_world sample_tmpdir
                (staged (sample_env clean_engine) clean_request sample_world sample_tmpdir)
                (py "/app/rules.yml")
                0 (py "{}") []) as [_ Hok].
    + apply reaches_engine_intro; [discriminate | vm_compute; reflexivity ..].
    + reflexivity.
    + apply (Hok (or_introl eq_refl) (JDict ∅) []); vm_compute; reflexivity.
Defined.

(** C3: [map_severity] answers [error], [warning] or [info] for every
    token; [ERROR], [WARNING] and [INFO] in any mix of ASCII capitals and
    small letters give [error], [warning] and [info]; a token whose upper
    case is none of the three gives [info], and so does a result that has
    no severity token. *)
Theorem map_severity_total_closed `{PyRuntime} (t : str) :
  map_severity t ∈ severities ∧
  (lower_ascii t = py "error" → map_severity t = py "error") ∧
  (lower_ascii t = py "warning" → map_severity t = py "warning") ∧
  (lower_ascii t = py "info" → map_severity t = py "info") ∧
  (upper t ∉ [py "ERROR"; py "WARNING"; py "INFO"] → map_severity t = py "info") ∧
  (∀ result f,
     parse_result result = Ok f →
     severity f ∈ severities ∧
     (severity_token result = None → severity f = py "info")).
Proof.
  split_and!.
  - apply map_severity_closed.
  - apply map_severity_error.
  - apply map_severity_warning.
  - apply map_severity_info.
  - apply map_severity_unrecognized.
  - intros result f Hp.
    apply parse_result_inv in Hp
      as (d & cid & st & ex & sv & -> & _ & _ & _ & _ & _ & Hex & _ & Hsv & -> & _).
    split; [apply map_severity_closed|].
    unfold severity_token. intros Hnone.
    assert (ex !! py "severity" = None) as Hmiss.
    { destruct (d !! py "extra") as [v|]; simpl in Hex.
      - by subst v.
      - injection Hex as <-. apply lookup_empty. }
    rewrite Hmiss in Hsv. simpl in Hsv. injection Hsv as <-.
    apply map_severity_info. by vm_compute.
Qed.

Lemma map_severity_total_closed_witness :
  map_severity (py "Warning") = py "warning" ∧
  map_severity (py "weird") = py "info" ∧
  ∃ f, parse_result sample_result = Ok f ∧ severity f = py "error".
Proof.
  destruct (map_severity_total_closed (py "Warning")) as (_ & _ & Hw & _).
  destruct (map_severity_total_closed (py "weird")) as (_ & _ & _ & _ & Hu & _).
  destruct (map_severity_total_closed (py "Error")) as (_ & He & _).
  split_and!.
  - apply Hw. reflexivity.
  - apply Hu. vm_compute. intros Hin.
    repeat (apply elem_of_cons in Hin as [Hin|Hin]; [discriminate|]).
    inversion Hin.
  - eexists. split; [vm_compute; reflexivity|]. apply He. reflexivity.
Defined.

(** C4: [map_category] answers [quality] for the identifier
    [test-todo-skip] and for no other, and [security] for every other
    identifier, in the list of security rules or not; the category of a
    finding is that of its rule identifier. *)
Theorem map_category_quality_iff `{PyRuntime} (r : str) :
  (map_category r = py "quality" ↔ r = py "test-todo-skip") ∧
  (r ≠ py "test-todo-skip" → map_category r = py "security") ∧
  (r ∉ security_rules → r ≠ py "test-todo-skip" → map_category r = py "security") ∧
  (∀ result f, parse_result result = Ok f → category f = map_category (rule_id f)).
Proof.
  split_and!.
  - apply map_category_quality.
  - apply map_category_security.
  - intros _. apply map_category_security.
  - intros result f Hp.
    by apply parse_result_inv in Hp
      as (d & cid & st & ex & sv & _ & _ & _ & _ & _ & _ & _ & _ & _ & _ & Hc).
Qed.

Lemma map_category_quality_iff_witness :
  map_category (py "test-todo-skip") = py "quality" ∧
  map_category (py "no-such-rule") = py "security".
Proof.
  destruct (map_category_quality_iff (py "test-todo-skip")) as ([_ Hq] & _).
  destruct (map_category_quality_iff (py "no-such-rule")) as (_ & _ & Hs & _).
  split.
  - apply Hq. reflexivity.
  - apply Hs.
    + apply (bool_decide_unpack (py "no-such-rule" ∉ security_rules)).
      vm_compute. exact I.
    + vm_compute. discriminate.
Defined.

(** C5 fails on a path that goes on, below the scratch directory, with a
    slash, a backslash and a slash: the slash is stripped, then the
    backslash, and the slash after it is left. The finding for the file
    [\/tmp/x.js] of a request gets the absolute path [/tmp/x.js], in the
    scratch area; a raw path that repeats the scratch directory after the
    backslash gets a path that starts with the scratch directory. *)
Theorem normalized_path_keeps_separator :
  (scan (sample_env reporting_engine) backslash_request sample_world).1 =
    Ok {| findings := [ finding_at (py "/tmp/x.js") ];
          duration_ms := 1234; files_scanned := 1 |} ∧
  startswith (py "/tmp/x.js") (tempdir (sample_env reporting_engine)) = true ∧
  path (normalize_path sample_tmpdir
          (finding_at (sample_tmpdir ++ [slash; backslash] ++ sample_tmpdir ++ py "/src/app.js"))) =
    sample_tmpdir ++ py "/src/app.js" ∧
  startswith (sample_tmpdir ++ py "/src/app.js") sample_tmpdir = true.
Proof. split_and!; vm_compute; reflexivity. Qed.



(** C7: the rule identifier of a finding is the final segment of the
    dotted identifier of the raw result it is made from: it has no dot, it
    is the whole identifier when that has no dot, and otherwise what follows
    its last dot; a result without identifier gives [unknown].
    [parse_semgrep_output] gives one finding for each raw result, in the
    order of the results, each with this identifier, and on raw results with
    well-typed fields it always gives them. The findings of a scan answered
    with success are these, with these identifiers: the rewriting of the
    paths leaves the identifier alone. *)
Theorem rule_id_final_segment `{PyRuntime} (output : json) :
  (∀ fl, parse_semgrep_output output = Ok fl →
     ∃ results, raw_results output = Ok results ∧
                Forall2 carries_final_segment results fl) ∧
  (∀ results, raw_results output = Ok results → Forall well_typed results →
     ∃ fl, parse_semgrep_output output = Ok fl ∧
           Forall2 carries_final_segment results fl) ∧
  (∀ env request w tmpdir w2 cfg rc out err,
     reaches_engine env request w tmpdir w2 cfg →
     engine env (semgrep_cmd cfg tmpdir) (fs w2) = Completed rc out err →
     json_loads out = inr output →
     (∀ resp, (scan env request w).1 = Ok resp →
        ∃ results, raw_results output = Ok results ∧
                   Forall2 carries_final_segment results (findings resp)) ∧
     (∀ results, rc = 0 ∨ rc = 1 →
        raw_results output = Ok results → Forall well_typed results →
        ∃ resp, (scan env request w).1 = Ok resp ∧
                Forall2 carries_final_segment results (findings resp))).
Proof.
  assert (∀ fl, parse_semgrep_output output = Ok fl →
            ∃ results, raw_results output = Ok results ∧
                       Forall2 carries_final_segment results fl) as Hids.
  { intros fl. rewrite parse_semgrep_output_raw.
    destruct (raw_results output) as [results|e]; simpl; [|done].
    intros Hp. exists results. split; [done|]. by apply parse_results_ids. }
  assert (∀ results, raw_results output = Ok results → Forall well_typed results →
            ∃ fl, parse_semgrep_output output = Ok fl ∧
                  Forall2 carries_final_segment results fl) as Htotal.
  { intros results Hraw Hwt.
    destruct (parse_results_well_typed results Hwt) as (fl & Hfl & _).
    exists fl. split; [|by apply parse_results_ids].
    by rewrite parse_semgrep_output_raw, Hraw. }
  split_and!; [exact Hids | exact Htotal |].
  intros env request w tmpdir w2 cfg rc out err Hr He Ho.
  rewrite (scan_reaches_engine _ _ _ _ _ _ Hr), He. simpl. split.
  - intros resp Hs.
    destruct (interpret_result env request tmpdir (rc, out, err)) as [r|e] eqn:Hi;
      [|discriminate].
    apply Ok_inj in Hs. subst r.
    apply interpret_result_Ok in Hi as (_ & output' & fl & Ho' & Hf & ->).
    rewrite Ho in Ho'. injection Ho' as <-.
    destruct (Hids fl Hf) as (results & Hraw & Hall).
    exists results. split; [done|]. simpl.
    by apply carries_final_segment_normalized.
  - intros results Hrc Hraw Hwt.
    destruct (Htotal results Hraw Hwt) as (fl & Hf & Hall).
    rewrite (interpret_result_success _ _ _ _ _ _ _ _ Hrc Ho Hf).
    eexists. split; [reflexivity|]. simpl.
    by apply carries_final_segment_normalized.
Qed.

Lemma rule_id_final_segment_witness :
  ∃ f1 f2,
    parse_semgrep_output (JDict two_results) = Ok [f1; f2] ∧
    rule_id f1 = py "js-eval-usage" ∧ rule_id f2 = py "unknown".
Proof.
  destruct (rule_id_final_segment (JDict two_results)) as (_ & Htotal & _).
  destruct (Htotal [sample_result; JDict ∅]) as (fl & Hfl & Hall).
  - reflexivity.
  - repeat constructor; vm_compute; tauto.
  - inversion Hall as [|r1 f1 rest1 fl1 H1 Hall1]; subst.
    inversion Hall1 as [|r2 f2 rest2 fl2 H2 Hall2]; subst.
    inversion Hall2; subst.
    exists f1, f2. split_and!; [exact Hfl | |exact H2].
    unfold carries_final_segment in H1.
    change (raw_check_id sample_result)
      with (Some (JStr (py "rules.js-eval-usage"))) in H1.
    destruct H1 as [-> _]. vm_compute. reflexivity.
Defined.

(** C8: when the engine exits with code 0 or 1 and its output is not valid
    JSON, the scan is a tool failure (status 500) whose detail carries at
    most the first 200 characters of the output. *)
Theorem malformed_output_is_tool_failure `{PyRuntime} (env : Env)
    (request : ScanRequest) (w : world) (tmpdir : str) (w2 : world) (cfg : str)
    (rc : Z) (out err : str) :
  reaches_engine env request w tmpdir w2 cfg →
  engine env (semgrep_cmd cfg tmpdir) (fs w2) = Completed rc out err →
  rc = 0 ∨ rc = 1 →
  json_loads out = inl JSONDecodeError →
  (scan env request w).1 =
    Raise (HTTPException 500
             (Text (py "Failed to parse Semgrep output: " ++ take 200 out))) ∧
  (length (take 200 out) ≤ 200)%nat ∧ take 200 out `prefix_of` out.
Proof.
  intros Hr He Hrc Ho. rewrite (scan_reaches_engine _ _ _ _ _ _ Hr), He. simpl.
  rewrite (interpret_result_malformed _ _ _ _ _ _ Hrc Ho).
  split_and!; [done | rewrite length_take; lia | apply prefix_take].
Qed.

Lemma malformed_output_is_tool_failure_witness :
  (scan (sample_env garbled_engine) clean_request sample_world).1 =
    Raise (HTTPException 500
             (Text (py "Failed to parse Semgrep output: Segmentation fault"))).
Proof.
  destruct (malformed_output_is_tool_failure (sample_env garbled_engine)
              clean_request sample_world sample_tmpdir
              (staged (sample_env garbled_engine) clean_request sample_world sample_tmpdir)
              (py "/app/rules.yml")
              1 (py "Segmentation fault") []) as [E _].
  - apply reaches_engine_intro; [discriminate | vm_compute; reflexivity ..].
  - reflexivity.
  - right. reflexivity.
  - vm_compute. reflexivity.
  - exact E.
Defined.

(** C9: a request with no files is answered with no findings, a duration of
    0 and 0 files scanned, and the world is left as it was: no scratch
    directory is made and the engine is not run. A request answered with
    success reports as [files_scanned] the number of its files, whatever the
    findings. *)
Theorem scan_empty_and_files_scanned `{PyRuntime} (env : Env)
    (request : ScanRequest) (w : world) :
  (files request = [] →
   scan env request w =
   (Ok {| findings := []; duration_ms := 0; files_scanned := 0 |}, w)) ∧
  (∀ resp w', scan env request w = (Ok resp, w') →
              files_scanned resp = Z.of_nat (length (files request))).
Proof.
  split.
  - intros E. unfold scan. by rewrite E.
  - intros resp w' Hs. destruct (decide (files request = [])) as [E|Hne].
    + unfold scan in Hs. rewrite E in *. by injection Hs as <- _.
    + rewrite (scan_nonempty _ _ _ Hne) in Hs.
      destruct (mkdtemp env scratch_prefix w) as [[tmpdir|e] w1]; [|done].
      unfold try_finally in Hs.
      destruct (scan_body env request tmpdir w1) as [[a|e] w2] eqn:Hb; [|done].
      injection Hs as <- _. by eapply scan_body_Ok.
Qed.

Lemma scan_empty_and_files_scanned_witness :
  scan (sample_env clean_engine) {| files := []; rules_config := py "custom" |}
       sample_world =
  (Ok {| findings := []; duration_ms := 0; files_scanned := 0 |}, sample_world) ∧
  ∃ resp, (scan (sample_env clean_engine) clean_request sample_world).1 = Ok resp ∧
          files_scanned resp = 1.
Proof.
  split.
  - apply (scan_empty_and_files_scanned (sample_env clean_engine)
             {| files := []; rules_config := py "custom" |} sample_world).
    reflexivity.
  - exists {| findings := []; duration_ms := 1234; files_scanned := 1 |}.
    assert ((scan (sample_env clean_engine) clean_request sample_world).1 =
            Ok {| findings := []; duration_ms := 1234; files_scanned := 1 |}) as E
      by (vm_compute; reflexivity).
    split; [exact E|].
    apply (proj2 (scan_empty_and_files_scanned (sample_env clean_engine)
                    clean_request sample_world) _ _ (pair_split _ _ E)).
Defined.



(** * Further properties *)

(** ** The health endpoint *)







Example health_ignores_exit_code :
  (health (sample_env version_engine) sample_world).1 =
    Ok {| status := py "ok"; semgrep_version := py "1.45.0" |} ∧
  (health (sample_env stalled_engine) sample_world).1 =
    Ok {| status := py "ok"; semgrep_version := py "unknown" |}.
Proof. split; vm_compute; reflexivity. Qed.

(** ** Findings in the order of the results *)

(** X2: [parse_semgrep_output] gives one finding for each result of the
    engine, in the order of the results; output without a [results] key
    gives no findings. It gives findings for all results or for none: the
    first result that cannot be parsed raises, and the findings of the
    results before it are lost. *)
Theorem parse_semgrep_output_in_order `{PyRuntime} (d : gmap str json) :
  (d !! py "results" = None → parse_semgrep_output (JDict d) = Ok []) ∧
  (∀ results,
     d !! py "results" = Some (JList results) →
     (∀ fl, parse_semgrep_output (JDict d) = Ok fl ↔
            Forall2 (λ r f, parse_result r = Ok f) results fl) ∧
     (∀ e, parse_semgrep_output (JDict d) = Raise e ↔
           ∃ before bad rest fl,
             results = before ++ bad :: rest ∧
             Forall2 (λ r f, parse_result r = Ok f) before fl ∧
             parse_result bad = Raise e)).
Proof.
  unfold parse_semgrep_output. simpl. split.
  - intros ->. reflexivity.
  - intros results ->. simpl. split.
    + intros fl. apply parse_results_Ok.
    + intros e. apply parse_results_Raise.
Qed.

Lemma parse_semgrep_output_in_order_witness :
  (∃ f1 f2, parse_semgrep_output (JDict two_results) = Ok [f1; f2] ∧
            rule_id f1 = py "js-eval-usage" ∧ rule_id f2 = py "unknown") ∧
  parse_semgrep_output (JDict broken_results) = Raise (Py AttributeError).
Proof.
  destruct (parse_semgrep_output_in_order two_results) as [_ Hlist].
  destruct (Hlist [sample_result; JDict ∅] eq_refl) as [Hok _].
  destruct (parse_semgrep_output_in_order broken_results) as [_ Hlist'].
  destruct (Hlist' [sample_result; JNull; sample_result] eq_refl) as [_ Hbad].
  split.
  - eexists _, _. split.
    { apply Hok. repeat constructor; vm_compute; reflexivity. }
    split; vm_compute; reflexivity.
  - apply Hbad. eexists [sample_result], JNull, [sample_result], [_].
    split_and!; [reflexivity | repeat constructor; vm_compute; reflexivity | reflexivity].
Defined.

(** ** The fields of a finding *)

(** X3: the line of a finding is the [line] of the [start] of the result,
    its message the [message] of [extra], its path the [path]; a missing
    [start] or [line] gives line 0, a missing [extra], [message] or [path]
    the empty text. The [end] of the result is not looked at. *)
Theorem finding_field_defaults `{PyRuntime} (d : gmap str json) (f : Finding) :
  parse_result (JDict d) = Ok f →
  (d !! py "path" = None → path f = []) ∧
  (∀ p, d !! py "path" = Some (JStr p) → path f = p) ∧
  (d !! py "start" = None → line f = 0) ∧
  (∀ st, d !! py "start" = Some (JDict st) →
     (st !! py "line" = None → line f = 0) ∧
     (∀ z, st !! py "line" = Some (JInt z) → line f = z)) ∧
  (d !! py "extra" = None → message f = []) ∧
  (∀ ex, d !! py "extra" = Some (JDict ex) →
     (ex !! py "message" = None → message f = []) ∧
     (∀ m, ex !! py "message" = Some (JStr m) → message f = m)) ∧
  (∀ d', (∀ k, k ≠ py "end" → d' !! k = d !! k) → parse_result (JDict d') = Ok f).
Proof.
  intros Hp. pose proof Hp as Hinv.
  apply parse_result_inv in Hinv
    as (d0 & cid & st & ex & sv & [= <-] & _ & _ & Hpath & Hst & Hline & Hex & Hmsg & _).
  split_and!.
  - intros E. rewrite E in Hpath. simpl in Hpath.
    rewrite validate_str_JStr in Hpath. by injection Hpath.
  - intros p E. rewrite E in Hpath. simpl in Hpath.
    rewrite validate_str_JStr in Hpath. by injection Hpath.
  - intros E. rewrite E in Hst. simpl in Hst. injection Hst as <-.
    rewrite lookup_empty in Hline. simpl in Hline.
    rewrite validate_int_JInt in Hline. by injection Hline.
  - intros st' E. rewrite E in Hst. simpl in Hst. injection Hst as <-. split.
    + intros E'. rewrite E' in Hline. simpl in Hline.
      rewrite validate_int_JInt in Hline. by injection Hline.
    + intros z E'. rewrite E' in Hline. simpl in Hline.
      rewrite validate_int_JInt in Hline. by injection Hline.
  - intros E. rewrite E in Hex. simpl in Hex. injection Hex as <-.
    rewrite lookup_empty in Hmsg. simpl in Hmsg.
    rewrite validate_str_JStr in Hmsg. by injection Hmsg.
  - intros ex' E. rewrite E in Hex. simpl in Hex. injection Hex as <-. split.
    + intros E'. rewrite E' in Hmsg. simpl in Hmsg.
      rewrite validate_str_JStr in Hmsg. by injection Hmsg.
    + intros m E'. rewrite E' in Hmsg. simpl in Hmsg.
      rewrite validate_str_JStr in Hmsg. by injection Hmsg.
  - intros d' Hsame. rewrite <- Hp. unfold parse_result. simpl.
    rewrite !Hsame; [done | by vm_compute ..].
Qed.

Lemma finding_field_defaults_witness :
  ∃ f, parse_result (JDict bare_result) = Ok f ∧
       line f = 7 ∧ path f = [] ∧ message f = [].
Proof.
  assert (∃ f, parse_result (JDict bare_result) = Ok f) as [f Hf]
    by (eexists; vm_compute; reflexivity).
  destruct (finding_field_defaults bare_result f Hf)
    as (Hpath & _ & _ & Hstart & Hextra & _).
  exists f. split_and!; [done | | by apply Hpath | by apply Hextra].
  destruct (Hstart {[ py "line" := JInt 7 ]} eq_refl) as [_ Hline].
  by apply Hline.
Defined.

(** ** The ways through a scan *)

Section ScanCases.
Context `{RT : PyRuntime}.
Variable env : Env.

Lemma resolve_config_cases request w :
  (rules_config request = py "auto" ∧
   resolve_config env request w = (Ok (py "auto"), w)) ∨
  (rules_config request ≠ py "auto" ∧
   exists_ (cwd env) (fs w) (RULES_PATH env) = true ∧
   resolve_config env request w = (Ok (Path_str (RULES_PATH env)), w)) ∨
  (rules_config request ≠ py "auto" ∧
   exists_ (cwd env) (fs w) (RULES_PATH env) = false ∧
   resolve_config env request w =
     (Raise (HTTPException 500 (Text (py "rules.yml not found"))), w)).
Proof.
  unfold resolve_config. case_bool_decide as Hauto; [by left|right].
  rewrite M_bind_unfold. unfold Path_exists.
  destruct (exists_ _ _ _); [left|right]; done.
Qed.

(** The three ways through a scan once the scratch directory is made: a
    file cannot be written, the rules file is missing, or the engine is
    started. *)
Lemma scan_cases request w tmpdir w1 :
  files request ≠ [] →
  mkdtemp env scratch_prefix w = (Ok tmpdir, w1) →
  (∃ e' w2,
     write_files env tmpdir (files request) w1 = (Raise (Py e'), w2) ∧ fs_error e' ∧
     scan env request w =
       (Raise (HTTPException 500 (StrOf e')), rmtree_ignore_errors env tmpdir w2)) ∨
  (∃ w2,
     write_files env tmpdir (files request) w1 = (Ok (), w2) ∧
     rules_config request ≠ py "auto" ∧
     exists_ (cwd env) (fs w2) (RULES_PATH env) = false ∧
     scan env request w =
       (Raise (HTTPException 500 (Text (py "rules.yml not found"))),
        rmtree_ignore_errors env tmpdir w2)) ∨
  (∃ w2 cfg,
     reaches_engine env request w tmpdir w2 cfg ∧
     (rules_config request = py "auto" ∧ cfg = py "auto" ∨
      rules_config request ≠ py "auto" ∧ cfg = Path_str (RULES_PATH env) ∧
      exists_ (cwd env) (fs w2) (RULES_PATH env) = true)).
Proof.
  intros Hne Hm.
  destruct (write_files env tmpdir (files request) w1) as [[[]|e] w2] eqn:Hw.
  - right.
    destruct (resolve_config_cases request w2)
      as [(Ha & Hc)|[(Ha & Hex & Hc)|(Ha & Hex & Hc)]].
    + right. exists w2, (py "auto"). split; [|by left].
      split; [done|]. by exists w1.
    + right. exists w2, (Path_str (RULES_PATH env)). split; [|by right].
      split; [done|]. by exists w1.
    + left. exists w2. split_and!; try done.
      rewrite (scan_nonempty _ _ _ Hne), Hm. unfold try_finally, scan_body.
      by rewrite M_bind_unfold, Hw, M_bind_unfold, Hc.
  - left. destruct (write_files_raises _ _ _ _ _ _ Hw) as (e' & -> & He').
    exists e', w2. split_and!; try done.
    rewrite (scan_nonempty _ _ _ Hne), Hm. unfold try_finally.
    rewrite (scan_body_write_failed _ _ _ _ _ _ Hw).
    by rewrite (handler_fs_error _ He').
Qed.


Lemma handler_status e :
  ∃ s d, handler e = HTTPException s d ∧
         (match e with HTTPException s' _ => s = s' | Py _ => s = 500 ∨ s = 504 end).
Proof. destruct e as [s d|[]]; simpl; eauto. Qed.

End ScanCases.

(** X4: a scan of a request with files is answered with success only when
    the engine was started on the written files, exited with code 0 or 1 and
    printed JSON that gives findings; the answer carries these findings,
    with their paths rewritten, in the order of the engine. *)
Theorem success_only_through_engine `{PyRuntime} (env : Env)
    (request : ScanRequest) (w : world) (resp : ScanResponse) :
  files request ≠ [] →
  (scan env request w).1 = Ok resp →
  ∃ tmpdir w2 cfg rc out err output fl,
    reaches_engine env request w tmpdir w2 cfg ∧
    engine env (semgrep_cmd cfg tmpdir) (fs w2) = Completed rc out err ∧
    (rc = 0 ∨ rc = 1) ∧
    json_loads out = inr output ∧
    parse_semgrep_output output = Ok fl ∧
    resp = {| findings := List.map (normalize_path tmpdir) fl;
              duration_ms := elapsed_ms env;
              files_scanned := Z.of_nat (length (files request)) |}.
Proof.
  intros Hne Hs.
  destruct (mkdtemp env scratch_prefix w) as [[tmpdir|e] w1] eqn:Hm.
  2: { rewrite (scan_nonempty _ _ _ Hne), Hm in Hs. discriminate. }
  destruct (scan_cases env request w tmpdir w1 Hne Hm)
    as [(e' & w2 & _ & _ & E)|[(w2 & _ & _ & _ & E)|(w2 & cfg & Hr & _)]].
  - rewrite E in Hs. discriminate.
  - rewrite E in Hs. discriminate.
  - rewrite (scan_reaches_engine _ _ _ _ _ _ Hr) in Hs. simpl in Hs.
    destruct (engine env _ _) as [rc out err|e] eqn:He; [|discriminate].
    simpl in Hs.
    destruct (interpret_result env request tmpdir (rc, out, err)) as [r|e] eqn:Hi;
      [|discriminate].
    apply Ok_inj in Hs. subst r.
    apply interpret_result_Ok in Hi as (Hrc & output & fl & Ho & Hf & ->).
    by exists tmpdir, w2, cfg, rc, out, err, output, fl.
Qed.

Lemma success_only_through_engine_witness :
  ∃ tmpdir w2 cfg rc out err output fl,
    reaches_engine (sample_env clean_engine) clean_request sample_world tmpdir w2 cfg ∧
    engine (sample_env clean_engine) (semgrep_cmd cfg tmpdir) (fs w2) =
      Completed rc out err ∧
    (rc = 0 ∨ rc = 1) ∧
    json_loads out = inr output ∧
    parse_semgrep_output output = Ok fl ∧
    {| findings := []; duration_ms := 1234; files_scanned := 1 |} =
    {| findings := List.map (normalize_path tmpdir) fl;
       duration_ms := elapsed_ms (sample_env clean_engine);
       files_scanned := Z.of_nat (length (files clean_request)) |}.
Proof.
  apply (success_only_through_engine (sample_env clean_engine) clean_request
           sample_world).
  - discriminate.
  - vm_compute. reflexivity.
Defined.



(** ** The rules file *)

(** X6: with a [rules_config] other than [auto], the rules file is looked
    for once the files of the request are written; when it is not there the
    scan is answered with status 500 and [rules.yml not found], the engine
    is not started and the scratch directory is removed. *)
Theorem missing_rules_file_is_config_error `{PyRuntime} (env : Env)
    (request : ScanRequest) (w : world) (tmpdir : str) (w1 w2 : world) :
  files request ≠ [] →
  mkdtemp env scratch_prefix w = (Ok tmpdir, w1) →
  write_files env tmpdir (files request) w1 = (Ok (), w2) →
  rules_config request ≠ py "auto" →
  exists_ (cwd env) (fs w2) (RULES_PATH env) = false →
  (scan env request w).1 =
    Raise (HTTPException 500 (Text (py "rules.yml not found"))) ∧
  trace (scan env request w).2 = trace w ++ [EvMkdtemp tmpdir; EvRmtree tmpdir].
Proof.
  intros Hne Hm Hw Hauto Hex.
  destruct (resolve_config_cases env request w2)
    as [(Ha & _)|[(_ & Hex' & _)|(_ & _ & Hc)]]; [done | congruence |].
  rewrite (scan_nonempty _ _ _ Hne), Hm. unfold try_finally, scan_body.
  rewrite M_bind_unfold, Hw, M_bind_unfold, Hc. simpl. split; [done|].
  apply mkdtemp_from_inv in Hm as (name & _ & _ & _ & Ht1).
  apply write_files_effect in Hw as [Ht2 _].
  rewrite Ht2, Ht1, <- app_assoc. done.
Qed.

Lemma missing_rules_file_is_config_error_witness :
  (scan bare_env clean_request sample_world).1 =
    Raise (HTTPException 500 (Text (py "rules.yml not found"))) ∧
  trace (scan bare_env clean_request sample_world).2 =
    [EvMkdtemp sample_tmpdir; EvRmtree sample_tmpdir].
Proof.
  apply (missing_rules_file_is_config_error bare_env clean_request sample_world
           sample_tmpdir (mkdtemp bare_env scratch_prefix sample_world).2
           (staged bare_env clean_request sample_world sample_tmpdir)).
  - discriminate.
  - apply pair_split. vm_compute. reflexivity.
  - apply pair_split. vm_compute. reflexivity.
  - vm_compute. discriminate.
  - vm_compute. reflexivity.
Defined.

Section ModuleFile.
Context `{RT : PyRuntime}.
Variable env : Env.
Variable m : str.

Lemma mkdtemp_from_module_file names prefix w :
  mkdtemp_from (with_module_file m env) names prefix w =
  mkdtemp_from env names prefix w.
Proof.
  induction names as [|name rest IH]; simpl; [done|].
  destruct (os_mkdir _ _ _) as [e|?]; [|done].
  destruct e as [| |[]| | | | | | |]; done.
Qed.

Lemma write_files_module_file tmpdir l w :
  write_files (with_module_file m env) tmpdir l w = write_files env tmpdir l w.
Proof.
  revert w. induction l as [|f rest IH]; intros w; simpl; [done|].
  rewrite !M_bind_unfold.
  change (Path_mkdir_parents (with_module_file m env)) with (Path_mkdir_parents env).
  destruct (Path_mkdir_parents env _ w) as [[[]|e] w1]; [|done].
  rewrite !M_bind_unfold.
  change (Path_write_text (with_module_file m env)) with (Path_write_text env).
  destruct (Path_write_text env _ _ w1) as [[[]|e] w2]; [|done].
  apply IH.
Qed.

End ModuleFile.

(** X7: with [rules_config] set to [auto] the rules file plays no part:
    the scan, answer and world, is the same wherever the module, and the
    rules file beside it, is taken to be. *)
Theorem auto_never_reads_rules_file `{PyRuntime} (env : Env)
    (request : ScanRequest) (w : world) (m : str) :
  rules_config request = py "auto" →
  scan (with_module_file m env) request w = scan env request w.
Proof.
  intros Hauto. unfold scan. destruct (files request); [done|].
  rewrite !M_bind_unfold. unfold mkdtemp.
  rewrite mkdtemp_from_module_file.
  change (tmp_names (with_module_file m env)) with (tmp_names env).
  destruct (mkdtemp_from env _ _ w) as [[tmpdir|e] w1]; [|done].
  unfold try_finally, scan_body.
  rewrite !M_bind_unfold, write_files_module_file.
  destruct (write_files env tmpdir _ w1) as [[[]|e] w2]; [|done].
  rewrite !M_bind_unfold. unfold resolve_config.
  rewrite (bool_decide_eq_true_2 _ Hauto). reflexivity.
Qed.

Lemma auto_never_reads_rules_file_witness :
  scan bare_env auto_request sample_world =
  scan (sample_env clean_engine) auto_request sample_world.
Proof.
  apply (auto_never_reads_rules_file (sample_env clean_engine) auto_request
           sample_world (py "/srv/main.py")).
  reflexivity.
Defined.

(** ** What a scan does to the world *)



(** ** The rewriting of the paths *)

Lemma startswith_spec s p : startswith s p = true ↔ ∃ rest, s = p ++ rest.
Proof.
  revert s. induction p as [|a p IH]; intros s; simpl.
  - rewrite startswith_nil. split; [by exists s | done].
  - destruct s as [|b s]; [split; [done | by intros [? ?]]|]. simpl.
    destruct (N.eqb a b) eqn:Hab; simpl.
    + apply N.eqb_eq in Hab as ->. split.
      * intros [rest ->]%IH. eauto.
      * intros [rest [= ->]]. apply IH. eauto.
    + apply N.eqb_neq in Hab. split; [done|]. by intros [rest [= ? ?]].
Qed.

Lemma existsb_eqb_elem (c : char) chars : existsb (N.eqb c) chars = true ↔ c ∈ chars.
Proof.
  rewrite existsb_exists. split.
  - intros (x & Hin & Hx). apply N.eqb_eq in Hx as <-. by apply list_elem_of_In.
  - intros Hin. exists c. split; [by apply list_elem_of_In | apply N.eqb_refl].
Qed.

Lemma lstrip_spec chars s :
  ∃ run, s = run ++ lstrip chars s ∧ Forall (λ c, c ∈ chars) run ∧
         match lstrip chars s with [] => True | c :: _ => c ∉ chars end.
Proof.
  induction s as [|c s (run & Hs & Hrun & Hhd)]; simpl.
  - by exists [].
  - destruct (existsb (N.eqb c) chars) eqn:E.
    + exists (c :: run). split_and!; [simpl; by rewrite <- Hs | | done].
      constructor; [by apply existsb_eqb_elem | done].
    + exists []. split_and!; [done..|].
      rewrite <- existsb_eqb_elem. by rewrite E.
Qed.

(** X9: the rewriting of the path of a finding changes nothing but the
    path. A path that does not start with the scratch directory is kept. Of
    one that does, the scratch directory is cut off, then every slash that
    follows, then every backslash that follows these: the path is the
    scratch directory, the whole run of slashes, the whole run of
    backslashes, and the new path, which is so the end of the old one and
    does not start with a backslash. *)
Theorem normalize_path_cuts_prefix (tmpdir : str) (f : Finding) :
  rule_id (normalize_path tmpdir f) = rule_id f ∧
  line (normalize_path tmpdir f) = line f ∧
  message (normalize_path tmpdir f) = message f ∧
  severity (normalize_path tmpdir f) = severity f ∧
  category (normalize_path tmpdir f) = category f ∧
  path (normalize_path tmpdir f) `suffix_of` path f ∧
  (startswith (path f) tmpdir = false → normalize_path tmpdir f = f) ∧
  (startswith (path f) tmpdir = true →
   ∃ slashes backslashes,
     path f = tmpdir ++ slashes ++ backslashes ++ path (normalize_path tmpdir f) ∧
     Forall (λ c, c = slash) slashes ∧
     Forall (λ c, c = backslash) backslashes ∧
     head (backslashes ++ path (normalize_path tmpdir f)) ≠ Some slash ∧
     head (path (normalize_path tmpdir f)) ≠ Some backslash) ∧
  (∀ slashes backslashes rest,
     path f = tmpdir ++ slashes ++ backslashes ++ rest →
     Forall (λ c, c = slash) slashes →
     Forall (λ c, c = backslash) backslashes →
     head (backslashes ++ rest) ≠ Some slash →
     head rest ≠ Some backslash →
     path (normalize_path tmpdir f) = rest).
Proof.
  assert (∀ slashes backslashes rest,
            path f = tmpdir ++ slashes ++ backslashes ++ rest →
            Forall (λ c, c = slash) slashes →
            Forall (λ c, c = backslash) backslashes →
            head (backslashes ++ rest) ≠ Some slash →
            head rest ≠ Some backslash →
            path (normalize_path tmpdir f) = rest) as Hpin.
  { intros s1 s2 rest E Hs1 Hs2 Hh1 Hh2. unfold normalize_path.
    rewrite E, startswith_app. simpl. rewrite drop_app_length.
    rewrite (lstrip_run slash s1 (s2 ++ rest) Hs1).
    - apply (lstrip_run backslash s2 rest Hs2).
      destruct rest as [|x rest]; [done|]. intros ->. by apply Hh2.
    - destruct (s2 ++ rest) as [|x l]; [done|]. intros ->. by apply Hh1. }
  assert (startswith (path f) tmpdir = true →
          ∃ r1 r2,
            path f = tmpdir ++ r1 ++ r2 ++ path (normalize_path tmpdir f) ∧
            Forall (λ c, c = slash) r1 ∧ Forall (λ c, c = backslash) r2 ∧
            head (r2 ++ path (normalize_path tmpdir f)) ≠ Some slash ∧
            head (path (normalize_path tmpdir f)) ≠ Some backslash) as Hcut.
  { intros Hs. unfold normalize_path. rewrite Hs. simpl.
    apply startswith_spec in Hs as [rest Hs]. rewrite Hs, drop_app_length.
    destruct (lstrip_spec [slash] rest) as (r1 & E1 & Hr1 & Hhd1).
    destruct (lstrip_spec [backslash] (lstrip [slash] rest)) as (r2 & E2 & Hr2 & Hhd2).
    set (new := lstrip [backslash] (lstrip [slash] rest)) in *.
    rewrite E2 in Hhd1.
    assert (rest = r1 ++ r2 ++ new) as E by (by rewrite <- E2).
    clearbody new. subst rest.
    exists r1, r2. split_and!.
    - done.
    - eapply Forall_impl; [exact Hr1|]. intros c Hc.
      by apply list_elem_of_singleton in Hc.
    - eapply Forall_impl; [exact Hr2|]. intros c Hc.
      by apply list_elem_of_singleton in Hc.
    - destruct (r2 ++ new) as [|c l]; [done|].
      simpl. intros [= ->]. apply Hhd1. by left.
    - destruct new as [|c l]; [done|].
      simpl. intros [= ->]. apply Hhd2. by left. }
  assert (startswith (path f) tmpdir = false → normalize_path tmpdir f = f) as Hkeep.
  { intros Hs. unfold normalize_path. by rewrite Hs. }
  assert (path (normalize_path tmpdir f) `suffix_of` path f) as Hsuffix.
  { destruct (startswith (path f) tmpdir) eqn:Hs.
    - destruct (Hcut eq_refl) as (r1 & r2 & E & _).
      exists (tmpdir ++ r1 ++ r2). rewrite E at 1. by rewrite <- !app_assoc.
    - by rewrite (Hkeep eq_refl). }
  split_and!; try done; unfold normalize_path; by destruct (startswith _ _).
Qed.

Lemma normalize_path_cuts_prefix_witness :
  path (normalize_path sample_tmpdir
          (finding_at (py "/tmp/semgrep-scan-k3x9_q2a/src/app.js"))) =
    py "src/app.js" ∧
  normalize_path sample_tmpdir (finding_at (py "/srv/app.js")) =
    finding_at (py "/srv/app.js").
Proof.
  destruct (normalize_path_cuts_prefix sample_tmpdir
              (finding_at (py "/tmp/semgrep-scan-k3x9_q2a/src/app.js")))
    as (_ & _ & _ & _ & _ & _ & _ & _ & Hpin).
  destruct (normalize_path_cuts_prefix sample_tmpdir (finding_at (py "/srv/app.js")))
    as (_ & _ & _ & _ & _ & _ & Hkeep & _).
  split.
  - apply (Hpin [slash] [] (py "src/app.js")).
    + reflexivity.
    + by constructor.
    + constructor.
    + vm_compute. discriminate.
    + vm_compute. discriminate.
  - apply Hkeep. vm_compute. reflexivity.
Defined.

(** ** Plain paths *)

Lemma split_on_nonempty sep s : split_on sep s ≠ [].
Proof.
  destruct s as [|c s]; simpl; [done|].
  destruct (N.eqb c sep); [done|]. by destruct (split_on sep s).
Qed.

Lemma split_on_app sep a b :
  split_on sep (a ++ sep :: b) = split_on sep a ++ split_on sep b.
Proof.
  induction a as [|c a IH]; simpl.
  - by rewrite N.eqb_refl.
  - destruct (N.eqb c sep); [by rewrite IH|]. rewrite IH.
    pose proof (split_on_nonempty sep a). by destruct (split_on sep a).
Qed.

Lemma split_on_no_sep sep s : Forall (λ x, sep ∉ x) (split_on sep s).
Proof.
  induction s as [|c s IH]; simpl.
  - constructor; [apply not_elem_of_nil | constructor].
  - destruct (N.eqb c sep) eqn:E.
    + constructor; [apply not_elem_of_nil | done].
    + apply N.eqb_neq in E.
      destruct (split_on sep s) as [|hd tl].
      * constructor; [|done]. rewrite not_elem_of_cons. split; [done|].
        apply not_elem_of_nil.
      * inversion IH as [|? ? Hhd Htl]; subst. constructor; [|done].
        rewrite not_elem_of_cons. split; [congruence | done].
Qed.

Lemma split_on_whole sep s : sep ∉ s → split_on sep s = [s].
Proof.
  intros Hs. destruct (split_on_spec sep s) as [[_ E]|(a & b & _ & _ & -> & _)]; [done|].
  exfalso. apply Hs. apply elem_of_app. right. by left.
Qed.

Lemma split_on_join l :
  l ≠ [] → Forall (λ x, slash ∉ x) l → split_on slash (join_slash l) = l.
Proof.
  induction l as [|x l IH]; [done|]. intros _ Hall.
  inversion Hall as [|? ? Hx Hl]; subst.
  destruct l as [|y l]; simpl.
  - by apply split_on_whole.
  - rewrite split_on_app, (split_on_whole _ _ Hx). simpl. f_equal. by apply IH.
Qed.

(** The components of a parsed path. *)
Lemma parts_parse_path p :
  Forall (λ x, x ≠ [] ∧ (slash ∉ x) ∧ is_part x = true) (parts (parse_path p)).
Proof.
  unfold parse_path. destruct (splitroot p) as [r rel]. simpl.
  pose proof (split_on_no_sep slash rel) as Hall.
  induction Hall as [|x l Hx Hl IH]; simpl; [constructor|].
  destruct (is_part x) eqn:E; [|done]. constructor; [|done].
  split_and!; [|done..]. intros ->. by vm_compute in E.
Qed.

Lemma root_parse_path p :
  root (parse_path p) = [] ∨ root (parse_path p) = [slash] ∨
  root (parse_path p) = [slash; slash].
Proof.
  unfold parse_path.
  destruct (splitroot p) as [r rel] eqn:E. simpl. unfold splitroot in E.
  destruct (startswith p [slash]) eqn:E1; simpl in E; [|left; congruence].
  destruct (negb (startswith (drop 1 p) [slash]) || startswith (drop 2 p) [slash]) eqn:E2;
    [right; left; congruence|].
  right. right. injection E as <- _.
  apply startswith_spec in E1 as [p1 ->]. simpl in *.
  apply orb_false_iff in E2 as [E2 _]. apply negb_false_iff in E2.
  rewrite drop_0 in E2. apply startswith_spec in E2 as [p2 ->]. done.
Qed.

Lemma join_slash_cons x l :
  ∃ rest, join_slash (x :: l) = x ++ rest.
Proof. destruct l; simpl; [exists []; by rewrite app_nil_r | eauto]. Qed.

Lemma startswith_slash_cons c s :
  startswith (c :: s) [slash] = bool_decide (c = slash).
Proof.
  change (startswith (c :: s) [slash]) with (N.eqb slash c && startswith s []).
  rewrite startswith_nil, andb_true_r.
  case_bool_decide as E; [subst; reflexivity|].
  apply N.eqb_neq. congruence.
Qed.

Lemma splitroot_rooted r c s :
  r = [] ∨ r = [slash] ∨ r = [slash; slash] → c ≠ slash →
  splitroot (r ++ c :: s) = (r, c :: s).
Proof.
  intros Hr Hc. unfold splitroot. destruct Hr as [->|[->| ->]].
  - change ([] ++ c :: s) with (c :: s).
    by rewrite startswith_slash_cons, bool_decide_eq_false_2.
  - change ([slash] ++ c :: s) with (slash :: c :: s).
    rewrite startswith_slash_cons, bool_decide_eq_true_2 by done.
    change (drop 1 (slash :: c :: s)) with (c :: s).
    by rewrite startswith_slash_cons, bool_decide_eq_false_2.
  - change ([slash; slash] ++ c :: s) with (slash :: slash :: c :: s).
    rewrite startswith_slash_cons, bool_decide_eq_true_2 by done.
    change (drop 1 (slash :: slash :: c :: s)) with (slash :: c :: s).
    change (drop 2 (slash :: slash :: c :: s)) with (c :: s).
    rewrite !startswith_slash_cons, bool_decide_eq_true_2 by done.
    by rewrite bool_decide_eq_false_2.
Qed.

Lemma join_slash_last l x : last l = Some x → ∃ pre, join_slash l = pre ++ x.
Proof.
  induction l as [|y l IH]; [done|]. destruct l as [|z l].
  - intros [= ->]. by exists [].
  - intros Hl. destruct (IH Hl) as [pre E].
    exists (y ++ slash :: pre).
    change (join_slash (y :: z :: l)) with (y ++ slash :: join_slash (z :: l)).
    by rewrite E, <- app_assoc.
Qed.

Lemma filter_all_parts l :
  Forall (λ x, x ≠ [] ∧ (slash ∉ x) ∧ is_part x = true) l →
  List.filter is_part l = l.
Proof.
  induction 1 as [|x l (_ & _ & Hx) _ IH]; simpl; [done|]. by rewrite Hx, IH.
Qed.

Lemma posix_join_relative (a : str) (c : char) (key : str) :
  c ≠ slash → startswith key [slash] = false →
  posix_join (a ++ [c]) key = a ++ [c] ++ slash :: key.
Proof.
  intros Hc Hkey. unfold posix_join. rewrite Hkey, List.last_last.
  rewrite bool_decide_eq_false_2 by (by destruct a).
  rewrite bool_decide_eq_false_2 by done.
  simpl. by rewrite <- app_assoc.
Qed.

Lemma parse_path_rooted (r : str) (c : char) (s : str) :
  r = [] ∨ r = [slash] ∨ r = [slash; slash] → c ≠ slash →
  parse_path (r ++ c :: s) =
  {| root := r; parts := List.filter is_part (split_on slash (c :: s)) |}.
Proof. intros Hr Hc. unfold parse_path. by rewrite splitroot_rooted. Qed.

Lemma parts_join (l : list str) (key : str) :
  Forall (λ x, x ≠ [] ∧ (slash ∉ x) ∧ is_part x = true) l → l ≠ [] →
  List.filter is_part (split_on slash (join_slash l ++ slash :: key)) =
  l ++ List.filter is_part (split_on slash key).
Proof.
  intros Hall Hne. rewrite split_on_app, split_on_join.
  - rewrite List.filter_app. f_equal. by apply filter_all_parts.
  - done.
  - eapply Forall_impl; [exact Hall|]. by intros x (_ & ? & _).
Qed.

Lemma Path_str_parts (r : str) (l : list str) :
  l ≠ [] → Path_str {| root := r; parts := l |} = r ++ join_slash l.
Proof. intros Hne. unfold Path_str. simpl. destruct r; by destruct l. Qed.

(** The text of a path with components ends in a character that is no
    slash, and starts, after the root, with one. *)
Lemma join_slash_ends (l : list str) :
  Forall (λ x, x ≠ [] ∧ (slash ∉ x) ∧ is_part x = true) l → l ≠ [] →
  (∃ a c, join_slash l = a ++ [c] ∧ c ≠ slash) ∧
  (∃ c s, join_slash l = c :: s ∧ c ≠ slash).
Proof.
  intros Hall Hne. split.
  - destruct (last l) as [y|] eqn:Hlast; [|by apply last_None in Hlast].
    destruct (join_slash_last _ _ Hlast) as [pre Epre].
    apply last_Some in Hlast as [l' ->].
    apply Forall_app in Hall as [_ Hall].
    inversion Hall as [|? ? (Hy & Hys & _)]; subst.
    destruct (last y) as [c|] eqn:Hc; [|by apply last_None in Hc].
    apply last_Some in Hc as [y' ->].
    exists (pre ++ y'), c. split; [by rewrite Epre, app_assoc|].
    intros ->. apply Hys. apply elem_of_app. right. by left.
  - destruct l as [|x l]; [done|].
    inversion Hall as [|? ? (Hx & Hxs & _) _]; subst.
    destruct (join_slash_cons x l) as [rest Erest].
    destruct x as [|c x]; [done|].
    exists c, (x ++ rest). split; [by rewrite Erest|].
    intros ->. apply Hxs. by left.
Qed.

(** A relative path is joined below the path it is joined to: the
    components of the joined path are those of the first path, then those
    of the second. *)
Lemma joinpath_relative tmpdir key :
  parts (parse_path tmpdir) ≠ [] →
  startswith key [slash] = false →
  joinpath (parse_path tmpdir) key =
  {| root := root (parse_path tmpdir);
     parts := parts (parse_path tmpdir) ++ List.filter is_part (split_on slash key) |}.
Proof.
  intros Hne Hkey.
  pose proof (parts_parse_path tmpdir) as Hall.
  pose proof (root_parse_path tmpdir) as Hr.
  destruct (parse_path tmpdir) as [r l]. simpl in *.
  destruct (join_slash_ends l Hall Hne) as [(a & c & Ea & Hc) (c0 & s & Es & Hc0)].
  unfold joinpath.
  etrans; [apply (f_equal (λ t, parse_path (posix_join t key))), Path_str_parts, Hne|].
  simpl.
  etrans.
  { apply (f_equal parse_path).
    etrans; [apply (f_equal (λ t, posix_join (r ++ t) key)), Ea|]. simpl.
    etrans; [apply (f_equal (λ t, posix_join t key)), (app_assoc r a [c])|]. simpl.
    etrans; [by apply posix_join_relative|].
    etrans; [apply (app_assoc (r ++ a) [c] (slash :: key))|].
    etrans; [apply (f_equal (λ t, t ++ slash :: key)); symmetry; apply (app_assoc r a [c])|].
    simpl.
    etrans; [apply (f_equal (λ t, (r ++ t) ++ slash :: key)); symmetry; apply Ea|].
    simpl. symmetry. apply (app_assoc r (join_slash l) (slash :: key)). }
  etrans.
  { apply (f_equal (λ t, parse_path (r ++ t ++ slash :: key))), Es. }
  simpl.
  etrans; [by apply (parse_path_rooted r c0 (s ++ slash :: key))|].
  f_equal.
  etrans; [|by apply (parts_join l key)].
  exact (f_equal (λ t, List.filter is_part (split_on slash (t ++ slash :: key)))
           (eq_sym Es)).
Qed.

(** ** What is written stays below the scratch directory *)

Lemma same_outside_refl loc fs : same_outside loc fs fs.
Proof. by intros l. Qed.

Lemma same_outside_trans loc fs1 fs2 fs3 :
  same_outside loc fs1 fs2 → same_outside loc fs2 fs3 → same_outside loc fs1 fs3.
Proof. intros H1 H2 l Hl. by rewrite H2, H1. Qed.

Lemma same_outside_insert (loc : list str) (fs : fsmap) (l : list str) (n : node) :
  loc `prefix_of` l → same_outside loc fs (<[l := n]> fs).
Proof. intros Hl l' Hl'. apply lookup_insert_ne. by intros ->. Qed.

Lemma walk_plain fs cur comps loc :
  py ".." ∉ comps → walk fs cur comps = inr loc → loc = cur ++ comps.
Proof.
  revert cur. induction comps as [|c comps IH]; intros cur Hn; simpl.
  - intros [= <-]. by rewrite app_nil_r.
  - apply not_elem_of_cons in Hn as [Hc Hn].
    destruct (node_at fs cur) as [[|?]|]; try done.
    rewrite bool_decide_eq_false_2 by done.
    intros Hw. apply IH in Hw; [|done]. by rewrite Hw, <- app_assoc.
Qed.

Lemma removelast_prefix {A} (l : list A) : removelast l `prefix_of` l.
Proof.
  destruct (last l) as [x|] eqn:E.
  - apply last_Some in E as [l' ->]. rewrite removelast_last. by exists [x].
  - apply last_None in E as ->. done.
Qed.

Lemma removelast_snoc_app {A} (a b : list A) :
  b ≠ [] → removelast (a ++ b) = a ++ removelast b.
Proof. intros Hb. by apply removelast_app. Qed.

Section Inside.
Variable cwd : list str.
(** Where to start from, the components of the scratch directory, and
    where they lead. *)
Variables (start : list str) (tparts : list str) (tmploc : list str).
(** The components below the scratch directory, none of them [..]. *)
Variable rel : list str.
Hypothesis rel_plain : py ".." ∉ rel.

Lemma scratch_at_kept fs fs' : dirs_kept fs fs' → scratch_at start tparts tmploc fs → scratch_at start tparts tmploc fs'.
Proof. intros Hk [Hw Hd]. split; [by eapply walk_kept | by apply Hk]. Qed.

(** The entry a path along the scratch directory names is a directory
    already, or lies in the scratch directory. *)
Lemma target_inside fs p dir name :
  scratch_at start tparts tmploc fs →
  parts p `prefix_of` tparts ++ rel →
  start_of cwd p = start →
  walk fs (start_of cwd p) (removelast (parts p)) = inr dir →
  node_at fs dir = Some Dir →
  last (parts p) = Some name →
  name ≠ py ".." →
  fs !! (dir ++ [name]) = Some Dir ∨ tmploc `prefix_of` dir ++ [name].
Proof.
  intros [Hw Hd] Hpre Hstart Hdir Hnode Hlast Hname. rewrite Hstart in Hdir.
  pose proof (parts_snoc _ _ Hlast) as Hparts.
  assert (walk fs start (parts p) = inr (dir ++ [name])) as Hp.
  { rewrite Hparts, walk_app, Hdir. simpl. rewrite Hnode.
    by rewrite bool_decide_eq_false_2. }
  destruct (prefix_weak_total (parts p) tparts (tparts ++ rel) Hpre)
    as [[more Hmore]|[rel1 Hrel1]]; [by apply prefix_app_r| |].
  - left. rewrite Hmore, walk_app, Hp in Hw.
    destruct more as [|c more]; simpl in Hw.
    + by injection Hw as <-.
    + destruct (dir ++ [name]) as [|x l] eqn:E; [by destruct dir|].
      simpl in Hw. by destruct (fs !! (x :: l)) as [[|?]|].
  - right. rewrite Hrel1 in Hpre. apply prefix_app_inv in Hpre.
    destruct rel1 as [|x rel1].
    { rewrite app_nil_r in Hrel1. rewrite Hrel1, Hw in Hp. by injection Hp as ->. }
    rewrite Hrel1, walk_app, Hw in Hp. apply walk_plain in Hp.
    + rewrite Hp. by apply prefix_app_r.
    + intros Hin. apply rel_plain. destruct Hpre as [k ->].
      apply elem_of_app. by left.
Qed.

Lemma os_mkdir_inside fs p fs' :
  scratch_at start tparts tmploc fs → parts p `prefix_of` tparts ++ rel → start_of cwd p = start →
  os_mkdir cwd fs p = inr fs' → same_outside tmploc fs fs'.
Proof.
  intros Hs Hpre Hstart Hmk.
  apply os_mkdir_inv in Hmk
    as (dir & name & _ & Hdir & Hnode & Hlast & Hname & Hnew & ->).
  destruct (target_inside fs p dir name) as [Hd|Hin]; try done; [congruence|].
  by apply same_outside_insert.
Qed.

Lemma mkdir_exist_ok_inside fs p fs' :
  scratch_at start tparts tmploc fs → parts p `prefix_of` tparts ++ rel → start_of cwd p = start →
  mkdir_exist_ok cwd fs p = inr fs' → same_outside tmploc fs fs'.
Proof.
  intros Hs Hpre Hstart. unfold mkdir_exist_ok.
  destruct (os_mkdir cwd fs p) as [e|fs1] eqn:E.
  - destruct (is_ENOENT e); [done|].
    destruct (_ && _); [|done]. intros [= <-]. apply same_outside_refl.
  - intros [= <-]. by eapply os_mkdir_inside.
Qed.

Lemma mkdir_parents_inside r rparts fs fs' :
  scratch_at start tparts tmploc fs →
  rev rparts `prefix_of` tparts ++ rel →
  start_of cwd {| root := r; parts := [] |} = start →
  mkdir_parents cwd fs r rparts = inr fs' → same_outside tmploc fs fs'.
Proof.
  revert fs fs'. induction rparts as [|x rparent IH]; intros fs fs' Hs Hpre Hstart;
    simpl.
  - destruct (os_mkdir cwd fs _) as [e|fs1] eqn:E.
    + destruct (is_ENOENT e); [done|].
      destruct (_ && _); [|done]. intros [= <-]. apply same_outside_refl.
    + intros [= <-]. refine (os_mkdir_inside fs _ _ Hs _ _ E); [exact Hpre|exact Hstart].
  - destruct (os_mkdir cwd fs _) as [e|fs1] eqn:E.
    + destruct (is_ENOENT e).
      * destruct (mkdir_parents cwd fs r rparent) as [e2|fs2] eqn:E2; [done|].
        intros Hm. eapply same_outside_trans.
        -- eapply IH; [done| |done|exact E2].
           simpl in Hpre. by eapply prefix_app_l.
        -- refine (mkdir_exist_ok_inside fs2 _ _ _ _ _ Hm); [|exact Hpre|exact Hstart].
           eapply scratch_at_kept; [|done]. by eapply mkdir_parents_kept.
      * destruct (_ && _); [|done]. intros [= <-]. apply same_outside_refl.
    + intros [= <-]. refine (os_mkdir_inside fs _ _ Hs _ _ E); [exact Hpre|exact Hstart].
Qed.

Lemma lookup_parent_inv fs p dir name :
  lookup_parent cwd fs p = inr (dir, name) →
  walk fs (start_of cwd p) (removelast (parts p)) = inr dir ∧
  node_at fs dir = Some Dir ∧ last (parts p) = name.
Proof.
  unfold lookup_parent. destruct (walk _ _ _) as [e|dir']; [done|].
  destruct (node_at fs dir') as [[|?]|] eqn:E; try done. by intros [= <- <-].
Qed.

Lemma write_text_inside fs p content fs' err :
  scratch_at start tparts tmploc fs → parts p `prefix_of` tparts ++ rel → start_of cwd p = start →
  write_text cwd fs p content = (fs', err) → same_outside tmploc fs fs'.
Proof.
  intros Hs Hpre Hstart. unfold write_text.
  destruct (has_nul p); [intros [= <- _]; apply same_outside_refl|].
  destruct (lookup_parent cwd fs p) as [?|[dir [name|]]] eqn:El;
    try (intros [= <- _]; apply same_outside_refl).
  apply lookup_parent_inv in El as (Hdir & Hnode & Hlast).
  case_bool_decide as Hname; [intros [= <- _]; apply same_outside_refl|].
  destruct (target_inside fs p dir name) as [Hd|Hin]; try done.
  - rewrite Hd. intros [= <- _]. apply same_outside_refl.
  - destruct (fs !! (dir ++ [name])) as [[|?]|];
      [intros [= <- _]; apply same_outside_refl | |];
      destruct (existsb is_surrogate content); intros [= <- _];
      by apply same_outside_insert.
Qed.

End Inside.

Lemma plain_path_rel key :
  plain_path key → py ".." ∉ List.filter is_part (split_on slash key).
Proof.
  intros [_ Hn] Hin. apply Hn.
  apply list_elem_of_In in Hin. apply filter_In in Hin as [Hin _].
  by apply list_elem_of_In.
Qed.

Section Containment.
Context `{RT : PyRuntime}.
Variable env : Env.

(** The scratch directory [mkdtemp] makes is one new, empty directory. *)
Lemma mkdtemp_scratch w tmpdir w1 :
  mkdtemp env scratch_prefix w = (Ok tmpdir, w1) →
  ∃ tmploc,
    parts (parse_path tmpdir) ≠ [] ∧
    fs w !! tmploc = None ∧
    fs w1 = <[tmploc := Dir]> (fs w) ∧
    scratch_at (start_of (cwd env) (parse_path tmpdir)) (parts (parse_path tmpdir))
      tmploc (fs w1).
Proof.
  intros Hm. apply mkdtemp_from_inv in Hm as (_ & _ & _ & Hmk & _).
  pose proof (os_mkdir_kept _ _ _ _ Hmk) as Hk.
  apply os_mkdir_inv in Hmk
    as (dir & name & _ & Hdir & Hnode & Hlast & Hname & Hnew & Hfs).
  exists (dir ++ [name]). split_and!; [|done..|].
  { intros E. by rewrite E in Hlast. }
  split; [|rewrite Hfs; apply lookup_insert_eq].
  rewrite (parts_snoc _ _ Hlast), walk_app, (walk_kept _ _ _ _ _ Hk Hdir).
  simpl. rewrite (node_at_kept _ _ _ Hk Hnode).
  by rewrite bool_decide_eq_false_2.
Qed.

Lemma write_files_inside tmpdir tmploc l w r w' :
  parts (parse_path tmpdir) ≠ [] →
  scratch_at (start_of (cwd env) (parse_path tmpdir)) (parts (parse_path tmpdir))
    tmploc (fs w) →
  Forall (λ f, plain_path (fi_path f)) l →
  write_files env tmpdir l w = (r, w') →
  same_outside tmploc (fs w) (fs w').
Proof.
  intros Hne Hs Hall. revert w Hs.
  induction Hall as [|f rest Hf _ IH]; intros w Hs; simpl.
  { intros [= _ <-]. apply same_outside_refl. }
  rewrite (joinpath_relative tmpdir (fi_path f) Hne (proj1 Hf)).
  pose proof (plain_path_rel _ Hf) as Hrel.
  set (rel := List.filter is_part (split_on slash (fi_path f))) in *.
  rewrite M_bind_unfold. unfold Path_mkdir_parents at 1. simpl.
  destruct (mkdir_parents _ _ _ _) as [e|fs1] eqn:E1.
  { intros [= _ <-]. apply same_outside_refl. }
  pose proof (mkdir_parents_kept _ _ _ _ _ E1) as Hk1.
  eapply (mkdir_parents_inside (cwd env) _ _ tmploc rel Hrel) in E1;
    [|exact Hs| |reflexivity].
  2: { rewrite rev_involutive. apply removelast_prefix. }
  pose proof (scratch_at_kept _ _ _ _ _ Hk1 Hs) as Hs1.
  rewrite M_bind_unfold. unfold Path_write_text at 1. simpl.
  destruct (write_text _ _ _ _) as [fs2 err] eqn:E2.
  pose proof (write_text_kept _ _ _ _ _ _ E2) as Hk2.
  eapply (write_text_inside (cwd env) _ _ tmploc rel Hrel) in E2;
    [|exact Hs1|done|reflexivity].
  assert (same_outside tmploc (fs w) fs2) as Hout by (by eapply same_outside_trans).
  destruct err as [e|].
  { intros [= _ <-]. done. }
  intros Hw. apply IH in Hw.
  - by eapply same_outside_trans.
  - by eapply scratch_at_kept.
Qed.

End Containment.

(** In a tree, nothing lies below a place that has no entry. *)
Lemma fs_tree_below (fs : fsmap) (loc l : list str) :
  fs_tree fs → loc ≠ [] → fs !! loc = None → loc `prefix_of` l → fs !! l = None.
Proof.
  intros Ht Hne Hloc [k ->]. induction k as [|x k IH] using rev_ind.
  - by rewrite app_nil_r.
  - destruct (fs !! (loc ++ k ++ [x])) as [n|] eqn:E; [|done].
    apply Ht in E. simpl in E.
    rewrite app_assoc, removelast_last in E.
    destruct (loc ++ k) as [|y l'] eqn:E'; [by destruct loc|].
    simpl in E. congruence.
Qed.

(** X10: the files of a request whose paths are relative and have no [..]
    component are written in the scratch directory: [mkdtemp] adds this one
    directory to the file system, and the writing of the files, as far as it
    gets, leaves every entry that is not in the scratch directory as it
    was. *)
Theorem plain_paths_stay_in_scratch_directory `{PyRuntime} (env : Env)
    (request : ScanRequest) (w : world) (tmpdir : str) (w1 : world)
    (r : res unit) (w2 : world) :
  mkdtemp env scratch_prefix w = (Ok tmpdir, w1) →
  Forall (λ f, plain_path (fi_path f)) (files request) →
  write_files env tmpdir (files request) w1 = (r, w2) →
  ∃ tmploc,
    locate (cwd env) (fs w1) (parse_path tmpdir) = Some tmploc ∧
    fs w !! tmploc = None ∧
    fs w1 = <[tmploc := Dir]> (fs w) ∧
    ∀ l, ¬ tmploc `prefix_of` l → fs w2 !! l = fs w !! l.
Proof.
  intros Hm Hall Hw.
  destruct (mkdtemp_scratch env w tmpdir w1 Hm) as (tmploc & Hne & Hnew & Hfs & Hs).
  exists tmploc. split_and!; try done.
  - unfold locate. by rewrite (proj1 Hs).
  - intros l Hl.
    rewrite (write_files_inside env tmpdir tmploc _ _ _ _ Hne Hs Hall Hw l Hl).
    rewrite Hfs. apply lookup_insert_ne. by intros ->.
Qed.

(** X11: the removal of the scratch directory takes away what the scan
    wrote. Take a request whose paths are relative and have no [..]
    component, a file system that is a tree, and a removal that does not
    fail; let the engine leave any file system in which the scratch
    directory is still a directory. Then the removal, with which the scan
    ends, deletes everything at and below the scratch directory and nothing
    else; and if the engine changed nothing outside the scratch directory,
    the file system is again what it was before the scan. *)
Theorem removal_restores_file_system `{PyRuntime} (env : Env)
    (request : ScanRequest) (w : world) (tmpdir : str) (w1 : world)
    (r : res unit) (w2 : world) :
  fs_tree (fs w) →
  rmtree_fails env = false →
  Forall (λ f, plain_path (fi_path f)) (files request) →
  mkdtemp env scratch_prefix w = (Ok tmpdir, w1) →
  write_files env tmpdir (files request) w1 = (r, w2) →
  (files request ≠ [] →
   (scan env request w).2 =
   rmtree_ignore_errors env tmpdir (scan_body env request tmpdir w1).2) ∧
  ∃ tmploc,
    locate (cwd env) (fs w1) (parse_path tmpdir) = Some tmploc ∧
    ∀ w3,
      locate (cwd env) (fs w3) (parse_path tmpdir) = Some tmploc →
      fs w3 !! tmploc = Some Dir →
      (∀ l, tmploc `prefix_of` l →
            fs (rmtree_ignore_errors env tmpdir w3) !! l = None) ∧
      (∀ l, ¬ tmploc `prefix_of` l →
            fs (rmtree_ignore_errors env tmpdir w3) !! l = fs w3 !! l) ∧
      (same_outside tmploc (fs w2) (fs w3) →
       fs (rmtree_ignore_errors env tmpdir w3) = fs w).
Proof.
  intros Htree Hrm Hall Hm Hw. split.
  { intros Hne. rewrite (scan_nonempty _ _ _ Hne), Hm. unfold try_finally.
    by destruct (scan_body env request tmpdir w1) as [[?|?] ?]. }
  destruct (mkdtemp_scratch env w tmpdir w1 Hm) as (tmploc & Hparts & Hnew & Hfs & Hs).
  assert (tmploc ≠ []) as Hloc.
  { intros ->. destruct Hs as [_ Hd].
    apply mkdtemp_from_inv in Hm as (_ & _ & _ & Hmk & _).
    apply os_mkdir_inv in Hmk as (dir & name & _ & _ & _ & _ & _ & _ & Hfs').
    rewrite Hfs', lookup_insert_ne in Hd by (by destruct dir).
    assert (<[dir ++ [name] := Dir]> (fs w) !! [] = Some Dir) as Hx
      by (rewrite <- Hfs', Hfs; apply lookup_insert_eq).
    rewrite lookup_insert_ne in Hx by (by destruct dir). congruence. }
  pose proof (write_files_inside env tmpdir tmploc _ _ _ _ Hparts Hs Hall Hw) as Hout.
  exists tmploc. split; [unfold locate; by rewrite (proj1 Hs)|].
  intros w3 Hloc3 Hdir3.
  assert (fs (rmtree_ignore_errors env tmpdir w3) = remove_tree (fs w3) tmploc) as ->.
  { unfold rmtree_ignore_errors. simpl. rewrite Hrm, Hloc3.
    by assert (node_at (fs w3) tmploc = Some Dir) as -> by (by destruct tmploc). }
  unfold remove_tree.
  assert (∀ l, ¬ tmploc `prefix_of` l →
            filter (λ kv, ¬ tmploc `prefix_of` kv.1) (fs w3) !! l = fs w3 !! l) as Hkeep.
  { intros l Hl. destruct (fs w3 !! l) as [n|] eqn:E.
    - by apply map_lookup_filter_Some.
    - apply map_lookup_filter_None. by left. }
  assert (∀ l, tmploc `prefix_of` l →
            filter (λ kv, ¬ tmploc `prefix_of` kv.1) (fs w3) !! l = None) as Hgone.
  { intros l Hl. apply map_lookup_filter_None. right. intros n _. simpl. tauto. }
  split_and!; [exact Hgone | exact Hkeep |].
  intros Hsame. apply map_eq. intros l.
  destruct (decide (tmploc `prefix_of` l)) as [Hl|Hl].
  - by rewrite (Hgone l Hl), (fs_tree_below (fs w) tmploc l Htree Hloc Hnew Hl).
  - rewrite (Hkeep l Hl), (Hsame l Hl), (Hout l Hl), Hfs.
    apply lookup_insert_ne. by intros ->.
Qed.

Lemma nested_request_plain :
  Forall (λ f, plain_path (fi_path f)) (files nested_request).
Proof.
  repeat constructor; try (vm_compute; reflexivity);
    apply (bool_decide_unpack _); vm_compute; exact I.
Qed.

Lemma plain_paths_stay_in_scratch_directory_witness :
  ∃ tmploc,
    locate [py "app"]
      (fs (mkdtemp (sample_env clean_engine) scratch_prefix sample_world).2)
      (parse_path sample_tmpdir) = Some tmploc ∧
    sample_fs !! tmploc = None ∧
    fs (mkdtemp (sample_env clean_engine) scratch_prefix sample_world).2 =
      <[tmploc := Dir]> sample_fs ∧
    ∀ l, ¬ tmploc `prefix_of` l →
         fs (staged (sample_env clean_engine) nested_request sample_world
               sample_tmpdir) !! l = sample_fs !! l.
Proof.
  apply (plain_paths_stay_in_scratch_directory (sample_env clean_engine)
           nested_request sample_world sample_tmpdir
           (mkdtemp (sample_env clean_engine) scratch_prefix sample_world).2
           (Raise (Py (OSError IsADirectoryError
                         (py "/tmp/semgrep-scan-k3x9_q2a/src/lib"))))).
  - apply pair_split. vm_compute. reflexivity.
  - exact nested_request_plain.
  - apply pair_split. vm_compute. reflexivity.
Defined.

Lemma removal_restores_file_system_witness :
  fs (rmtree_ignore_errors (sample_env clean_engine) sample_tmpdir engine_left) =
    sample_fs.
Proof.
  destruct (removal_restores_file_system (sample_env clean_engine) nested_request
              sample_world sample_tmpdir
              (mkdtemp (sample_env clean_engine) scratch_prefix sample_world).2
              (Raise (Py (OSError IsADirectoryError
                            (py "/tmp/semgrep-scan-k3x9_q2a/src/lib"))))
              (staged (sample_env clean_engine) nested_request sample_world
                 sample_tmpdir))
    as (_ & tmploc & Hloc & Hrm).
  - apply (bool_decide_unpack _). vm_compute. exact I.
  - reflexivity.
  - exact nested_request_plain.
  - apply pair_split. vm_compute. reflexivity.
  - apply pair_split. vm_compute. reflexivity.
  - vm_compute in Hloc. injection Hloc as <-.
    apply (Hrm engine_left).
    + vm_compute. reflexivity.
    + vm_compute. reflexivity.
    + intros l Hl. unfold engine_left. simpl. apply lookup_insert_ne.
      intros <-. apply Hl. by exists [py ".semgrep_cache"].
Defined.

(** ** Engine output of another shape *)

(** X12: when the engine exits with code 0 or 1 and prints JSON that
    decodes but has not the shape of a report, the scan is answered with
    status 500 and the text of the exception as detail: the exception is an
    [AttributeError], a [TypeError] or a validation error of a finding, and
    an [AttributeError] when the output is no JSON object. *)
Theorem misshaped_report_is_500 `{PyRuntime} (env : Env) (request : ScanRequest)
    (w : world) (tmpdir : str) (w2 : world) (cfg : str)
    (rc : Z) (out err : str) (output : json) (e : exc) :
  reaches_engine env request w tmpdir w2 cfg →
  engine env (semgrep_cmd cfg tmpdir) (fs w2) = Completed rc out err →
  rc = 0 ∨ rc = 1 →
  json_loads out = inr output →
  parse_semgrep_output output = Raise e →
  ∃ e', e = Py e' ∧
        e' ∈ [AttributeError; TypeError; ValidationError] ∧
        match output with JDict _ => True | _ => e' = AttributeError end ∧
        (scan env request w).1 = Raise (HTTPException 500 (StrOf e')).
Proof.
  intros Hr He Hrc Ho Hp.
  pose proof (raises_parse_semgrep_output output e Hp) as Herr.
  assert ((scan env request w).1 = Raise (handler e)) as Hs.
  { rewrite (scan_reaches_engine _ _ _ _ _ _ Hr), He. simpl.
    unfold interpret_result. rewrite bool_decide_eq_true_2.
    - simpl. rewrite Ho. simpl. by rewrite Hp.
    - destruct Hrc as [->| ->]; [left | right; left]. }
  assert (match output with JDict _ => True | _ => e = Py AttributeError end) as Hshape.
  { destruct output; try done; by injection Hp. }
  destruct e as [|e']; [done|]. exists e'.
  destruct e'; try done; (split_and!; [done | | | exact Hs]);
    try (repeat first [apply list_elem_of_here | apply list_elem_of_further]);
    destruct output; try done; by injection Hshape.
Qed.

Lemma misshaped_report_is_500_witness :
  ∃ e', Py AttributeError = Py e' ∧
        e' ∈ [AttributeError; TypeError; ValidationError] ∧
        e' = AttributeError ∧
        (@scan (runtime_of [(py "[]", JList [])]) (sample_env listing_engine)
           clean_request sample_world).1 = Raise (HTTPException 500 (StrOf e')).
Proof.
  apply (@misshaped_report_is_500 (runtime_of [(py "[]", JList [])])
           (sample_env listing_engine) clean_request sample_world sample_tmpdir
           (@staged (runtime_of [(py "[]", JList [])]) (sample_env listing_engine)
              clean_request sample_world sample_tmpdir)
           (py "/app/rules.yml") 0 (py "[]") [] (JList [])).
  - apply reaches_engine_intro; [discriminate | vm_compute; reflexivity ..].
  - reflexivity.
  - by left.
  - vm_compute. reflexivity.
  - reflexivity.
Defined.

(** ** The files the engine finds *)

Lemma os_mkdir_subseteq cwd fs p fs' : os_mkdir cwd fs p = inr fs' → fs ⊆ fs'.
Proof.
  intros Hmk. apply os_mkdir_inv in Hmk as (dir & name & _ & _ & _ & _ & _ & Hnew & ->).
  by apply insert_subseteq.
Qed.

Lemma mkdir_exist_ok_subseteq cwd fs p fs' :
  mkdir_exist_ok cwd fs p = inr fs' → fs ⊆ fs'.
Proof.
  unfold mkdir_exist_ok. destruct (os_mkdir cwd fs p) as [e|fs1] eqn:E.
  - destruct (is_ENOENT e); [done|]. destruct (_ && _); [|done]. by intros [= <-].
  - intros [= <-]. by eapply os_mkdir_subseteq.
Qed.

Lemma mkdir_parents_subseteq cwd fs r rparts fs' :
  mkdir_parents cwd fs r rparts = inr fs' → fs ⊆ fs'.
Proof.
  revert fs fs'. induction rparts as [|x rparent IH]; intros fs fs'; simpl;
    destruct (os_mkdir cwd fs _) as [e|fs1] eqn:E;
    try (intros [= <-]; by eapply os_mkdir_subseteq).
  - destruct (is_ENOENT e); [done|]. destruct (_ && _); [|done]. by intros [= <-].
  - destruct (is_ENOENT e).
    + destruct (mkdir_parents cwd fs r rparent) as [e2|fs2] eqn:E2; [done|].
      intros Hm. etrans; [by eapply IH | by eapply mkdir_exist_ok_subseteq].
    + destruct (_ && _); [|done]. by intros [= <-].
Qed.

(** Writing a file below the scratch directory changes the entry of that
    file and no other. *)
Lemma write_text_only cwd start tparts tmploc rel fs p content fs' err :
  py ".." ∉ rel →
  scratch_at start tparts tmploc fs →
  start_of cwd p = start →
  parts p = tparts ++ rel →
  write_text cwd fs p content = (fs', err) →
  ∀ k, k ≠ tmploc ++ rel → fs' !! k = fs !! k.
Proof.
  intros Hrel [Hw Hd] Hstart Hparts. subst start. unfold write_text.
  destruct (has_nul p); [by intros [= <- _]|].
  destruct (lookup_parent cwd fs p) as [?|[dir [name|]]] eqn:El;
    try (by intros [= <- _]).
  apply lookup_parent_inv in El as (Hdir & Hnode & Hlast).
  case_bool_decide as Hname; [by intros [= <- _]|].
  assert (dir ++ [name] = tmploc ++ rel) as ->.
  { assert (walk fs (start_of cwd p) (parts p) = inr (dir ++ [name])) as Hp.
    { rewrite (parts_snoc _ _ Hlast), walk_app, Hdir. simpl. rewrite Hnode.
      by rewrite bool_decide_eq_false_2. }
    rewrite Hparts, walk_app, Hw in Hp. by apply walk_plain in Hp. }
  intros Hwrite k Hk.
  destruct (fs !! (tmploc ++ rel)) as [[|?]|];
    try destruct (existsb is_surrogate content);
    injection Hwrite as <- _; try done; by apply lookup_insert_ne.
Qed.

Lemma parts_relative key :
  startswith key [slash] = false →
  parse_path key =
  {| root := []; parts := List.filter is_part (split_on slash key) |}.
Proof. intros Hkey. unfold parse_path, splitroot. by rewrite Hkey. Qed.

Section Staged.
Context `{RT : PyRuntime}.
Variable env : Env.

(** What is written later leaves a file with another path as it is. *)
Lemma write_files_keeps tmpdir tmploc f l w w' c :
  parts (parse_path tmpdir) ≠ [] →
  scratch_at (start_of (cwd env) (parse_path tmpdir)) (parts (parse_path tmpdir))
    tmploc (fs w) →
  plain_path (fi_path f) →
  Forall (λ g, plain_path (fi_path g)) l →
  Forall (λ g, parse_path (fi_path g) ≠ parse_path (fi_path f)) l →
  fs w !! (tmploc ++ List.filter is_part (split_on slash (fi_path f))) = Some (File c) →
  write_files env tmpdir l w = (Ok (), w') →
  fs w' !! (tmploc ++ List.filter is_part (split_on slash (fi_path f))) = Some (File c).
Proof.
  intros Hne Hs Hf Hall Hother. revert w Hs.
  induction Hall as [|g rest Hg _ IH]; intros w Hs Hfile; simpl.
  { by intros [= <-]. }
  inversion Hother as [|? ? Hgf Hrest]; subst.
  rewrite (joinpath_relative tmpdir (fi_path g) Hne (proj1 Hg)).
  pose proof (plain_path_rel _ Hg) as Hrel.
  rewrite M_bind_unfold. unfold Path_mkdir_parents at 1. simpl.
  destruct (mkdir_parents _ _ _ _) as [e|fs1] eqn:E1; [done|].
  pose proof (mkdir_parents_kept _ _ _ _ _ E1) as Hk1.
  pose proof (mkdir_parents_subseteq _ _ _ _ _ E1) as Hsub.
  pose proof (scratch_at_kept _ _ _ _ _ Hk1 Hs) as Hs1.
  rewrite M_bind_unfold. unfold Path_write_text at 1. simpl.
  destruct (write_text _ _ _ _) as [fs2 [e|]] eqn:E2; [done|].
  pose proof (write_text_kept _ _ _ _ _ _ E2) as Hk2.
  intros Hw. apply IH in Hw; [done..| |].
  - by eapply scratch_at_kept.
  - simpl.
    assert (∀ k, k ≠ tmploc ++ List.filter is_part (split_on slash (fi_path g)) →
                 fs2 !! k = fs1 !! k) as Honly.
    { eapply write_text_only; [exact Hrel | exact Hs1 | | | exact E2]; reflexivity. }
    rewrite Honly.
    + eapply lookup_weaken; [exact Hfile | exact Hsub].
    + intros Heq. apply app_inv_head in Heq. apply Hgf.
      rewrite (parts_relative _ (proj1 Hg)), (parts_relative _ (proj1 Hf)).
      by f_equal.
Qed.

End Staged.

(** X13: the files the engine finds. When the files of a request with
    relative paths without [..] are all written, each of them is a file
    below the scratch directory, at its path and with its content, unless a
    later file of the request has the same path. *)
Theorem written_files_are_staged `{PyRuntime} (env : Env) (request : ScanRequest)
    (w : world) (tmpdir : str) (w1 w2 : world)
    (before : list FileInput) (f : FileInput) (after : list FileInput) :
  mkdtemp env scratch_prefix w = (Ok tmpdir, w1) →
  write_files env tmpdir (files request) w1 = (Ok (), w2) →
  Forall (λ g, plain_path (fi_path g)) (files request) →
  files request = before ++ f :: after →
  Forall (λ g, parse_path (fi_path g) ≠ parse_path (fi_path f)) after →
  os_stat (cwd env) (fs w2) (joinpath (parse_path tmpdir) (fi_path f)) =
    Some (File (fi_content f)).
Proof.
  intros Hm Hw Hall Hfiles Hafter. rewrite Hfiles in Hw, Hall.
  destruct (mkdtemp_scratch env w tmpdir w1 Hm) as (tmploc & Hne & _ & _ & Hs).
  apply Forall_app in Hall as [Hbefore Hall].
  inversion Hall as [|? ? Hf Hplain]; subst.
  rewrite write_files_app in Hw.
  destruct (write_files env tmpdir before w1) as [[[]|e] wa] eqn:Hwa; [|done].
  pose proof (write_files_effect _ _ _ _ _ _ Hwa) as [_ Hka].
  pose proof (scratch_at_kept _ _ _ _ _ Hka Hs) as Hsa.
  pose proof (joinpath_relative tmpdir (fi_path f) Hne (proj1 Hf)) as Hjoin.
  pose proof (plain_path_rel _ Hf) as Hrel.
  simpl in Hw. rewrite M_bind_unfold in Hw. unfold Path_mkdir_parents at 1 in Hw.
  destruct (mkdir_parents _ _ _ _) as [e|fs1] eqn:E1; [done|].
  pose proof (mkdir_parents_kept _ _ _ _ _ E1) as Hk1.
  pose proof (scratch_at_kept _ _ _ _ _ Hk1 Hsa) as Hs1.
  rewrite M_bind_unfold in Hw. unfold Path_write_text at 1 in Hw. simpl in Hw.
  destruct (write_text _ _ _ _) as [fs2 [e|]] eqn:E2; [done|].
  pose proof (write_text_kept _ _ _ _ _ _ E2) as Hk2.
  pose proof (scratch_at_kept _ _ _ _ _ Hk2 Hs1) as Hs2.
  (* the file is there once it is written *)
  pose proof (write_text_stat _ _ _ _ _ E2) as Hstat.
  unfold os_stat in Hstat |- *.
  destruct (has_nul _); [done|].
  rewrite Hjoin in Hstat |- *. simpl in Hstat |- *.
  change (start_of (cwd env) {| root := root (parse_path tmpdir); parts := _ |})
    with (start_of (cwd env) (parse_path tmpdir)) in Hstat |- *.
  destruct Hs2 as [Hwalk2 Hdir2].
  rewrite walk_app, Hwalk2 in Hstat.
  destruct (walk fs2 tmploc _) as [?|loc] eqn:Hloc; [done|].
  pose proof (walk_plain _ _ _ _ Hrel Hloc) as ->.
  set (loc := tmploc ++ List.filter is_part (split_on slash (fi_path f))) in *.
  assert (∀ m : fsmap, node_at m loc = m !! loc) as Hnode.
  { intros m. destruct loc; [done | reflexivity]. }
  rewrite Hnode in Hstat.
  (* and later writes leave it alone *)
  pose proof (write_files_effect _ _ _ _ _ _ Hw) as [_ Hkb].
  pose proof (write_files_keeps env tmpdir tmploc f after
                {| fs := fs2; trace := trace wa |} w2 (fi_content f)
                Hne (conj Hwalk2 Hdir2) Hf Hplain Hafter Hstat Hw) as Hend.
  rewrite walk_app, (walk_kept _ _ _ _ _ Hkb Hwalk2), (walk_kept _ _ _ _ _ Hkb Hloc).
  by rewrite Hnode.
Qed.

Lemma written_files_are_staged_witness :
  os_stat [py "app"]
    (fs (staged (sample_env clean_engine) two_files_request sample_world sample_tmpdir))
    (joinpath (parse_path sample_tmpdir) (py "src/lib/a.py")) =
  Some (File (py "x = 1")).
Proof.
  apply (written_files_are_staged (sample_env clean_engine) two_files_request
           sample_world sample_tmpdir
           (mkdtemp (sample_env clean_engine) scratch_prefix sample_world).2
           (staged (sample_env clean_engine) two_files_request sample_world
              sample_tmpdir)
           [] {| fi_path := py "src/lib/a.py"; fi_content := py "x = 1" |}
           [ {| fi_path := py "src/lib//./b.js"; fi_content := py "eval(x)" |} ]).
  - apply pair_split. vm_compute. reflexivity.
  - apply pair_split. vm_compute. reflexivity.
  - repeat constructor; try (vm_compute; reflexivity);
      apply (bool_decide_unpack _); vm_compute; exact I.
  - reflexivity.
  - repeat constructor. vm_compute. discriminate.
Defined.

(** ** Reports with well-typed fields *)

(** X14: a report with well-typed fields is always answered. When the
    engine exits with code 0 or 1 and prints a JSON object whose results,
    if it has any, are a list of objects with well-typed fields, the scan
    is answered with success, with one finding for each result, the elapsed
    time and the number of files of the request. *)
Theorem well_typed_report_is_answered `{PyRuntime} (env : Env)
    (request : ScanRequest) (w : world) (tmpdir : str) (w2 : world) (cfg : str)
    (rc : Z) (out err : str) (d : gmap str json) (results : list json) :
  reaches_engine env request w tmpdir w2 cfg →
  engine env (semgrep_cmd cfg tmpdir) (fs w2) = Completed rc out err →
  rc = 0 ∨ rc = 1 →
  json_loads out = inr (JDict d) →
  default (JList []) (d !! py "results") = JList results →
  Forall well_typed results →
  ∃ resp,
    (scan env request w).1 = Ok resp ∧
    length (findings resp) = length results ∧
    duration_ms resp = elapsed_ms env ∧
    files_scanned resp = Z.of_nat (length (files request)).
Proof.
  intros Hr He Hrc Ho Hres Hwt.
  destruct (parse_results_well_typed results Hwt) as (fl & Hfl & Hlen).
  assert (parse_semgrep_output (JDict d) = Ok fl) as Hp.
  { unfold parse_semgrep_output. simpl. rewrite Hres. simpl. exact Hfl. }
  eexists. split.
  - rewrite (scan_reaches_engine _ _ _ _ _ _ Hr), He. simpl.
    by rewrite (interpret_result_success _ _ _ _ _ _ _ _ Hrc Ho Hp).
  - simpl. by rewrite length_map, Hlen.
Qed.

Lemma well_typed_report_is_answered_witness :
  ∃ resp,
    (scan (sample_env reporting_engine) backslash_request sample_world).1 = Ok resp ∧
    length (findings resp) = 1%nat ∧
    duration_ms resp = 1234 ∧
    files_scanned resp = 1.
Proof.
  apply (well_typed_report_is_answered (sample_env reporting_engine)
           backslash_request sample_world sample_tmpdir
           (staged (sample_env reporting_engine) backslash_request sample_world
              sample_tmpdir)
           (py "auto") 1
           (report_text (py "/tmp/semgrep-scan-k3x9_q2a/\\/tmp/x.js")) []
           reported
           [ JDict (<[ py "check_id" := JStr (py "rules.js-eval-usage") ]>
                    {[ py "path" := JStr (py "/tmp/semgrep-scan-k3x9_q2a/\/tmp/x.js") ]}) ]).
  - apply reaches_engine_intro; [discriminate | vm_compute; reflexivity ..].
  - vm_compute. reflexivity.
  - by right.
  - vm_compute. reflexivity.
  - reflexivity.
  - repeat constructor.
Defined.
